(** * imq: persistence store and broker supervision

    A shallow embedding of
    - [vendor/github.com/goiiot/libmqtt/persist.go]: the persistence
      strategy, the three backends [nonePersist], [memPersist] and
      [filePersist] behind the [PersistMethod] interface;
    - the connection files of package [mqtt]: [handleConn], [handleWS],
      [tcpWorker] and the connection registry [connections];
    - [mqtt/base.go] and [mqtt/conf.go]: [Init], [destroy], the four
      listeners and the service configuration.

    Go's [uint32] counters are integers with their wrap-around written out,
    [sync.Map] is a finite map, a Go [error] is an [option error] ([None] is
    [nil]) and a [Packet] interface value is an [option Packet] ([None] is
    the nil interface).  The file system, the clock and the network are
    outside the program: the file system is a state threaded through the
    file backend, the network is the list of outcomes the calls observe. *)

From Stdlib Require Import ZArith Lia.
From Stdlib.Strings Require Import Byte.
From stdpp Require Import base option list gmap strings pretty.
From stdpp Require Import fin_maps fin_sets.

Local Open Scope string_scope.
Local Open Scope list_scope.
Local Open Scope Z_scope.

(** ** Machine integers *)

(** [uint32] arithmetic: every result is reduced modulo [2^32]. *)
Definition wrap32 (z : Z) : Z := z mod 2 ^ 32.

(** ** What the persistence code takes from the rest of libmqtt and from Go *)

Inductive ProtoVersion := V311 | V5.

(** The packet codec ([Packet.Bytes] and [Decode]) lives in other files of
    libmqtt; the persistence code only calls it. *)
Class Codec := {
  Packet : Type;
  Bytes : Packet → list byte;
  Decode : ProtoVersion → list byte → option Packet
}.

(** [path.Join], from Go's [path] package. *)
Class PathOps := {
  pathJoin : string → string → string
}.

(** Errors of the [os] package, as far as the code tells them apart:
    [os.IsNotExist] or anything else. *)
Inductive oserr := ENOENT | EIO.

Inductive error :=
| ErrPacketDroppedByStrategy
| PathError (e : oserr)
| DecodeError.

#[global] Instance oserr_eq_dec : EqDecision oserr.
Proof. solve_decision. Defined.
#[global] Instance error_eq_dec : EqDecision error.
Proof. solve_decision. Defined.

(** ** The file system seen by the file backend

    [files] maps a path to the content of the regular file there; [rfail]
    and [wfail] are the paths on which the device fails reads (open, read)
    and writes (create, write, unlink).  Regular files are all the model
    knows: a path is taken to name a regular file or nothing, and the
    directories themselves (a missing one, the removal of one) are not
    described. *)
Record fsys := {
  files : gmap string (list byte);
  rfail : gset string;
  wfail : gset string
}.

Definition emptyfs : fsys := {| files := ∅; rfail := ∅; wfail := ∅ |}.

(** [ioutil.ReadFile] *)
Definition ReadFile (fs : fsys) (path : string) : oserr + list byte :=
  if decide (path ∈ rfail fs) then inl EIO
  else match files fs !! path with
       | Some content => inr content
       | None => inl ENOENT
       end.

(** [os.Open], of which the code keeps the error only. *)
Definition Open (fs : fsys) (path : string) : option oserr :=
  if decide (path ∈ rfail fs) then Some EIO
  else match files fs !! path with
       | Some _ => None
       | None => Some ENOENT
       end.

(** [ioutil.WriteFile]: creates or truncates. *)
Definition WriteFile (fs : fsys) (path : string) (content : list byte)
  : oserr + fsys :=
  if decide (path ∈ wfail fs) then inl EIO
  else inr {| files := <[path := content]> (files fs);
              rfail := rfail fs; wfail := wfail fs |}.

(** [os.Remove] of a path that names a regular file or nothing: removing
    what is not there is an error.  (On a path that names a directory
    [os.Remove] removes it when it is empty; directories are outside the
    model.) *)
Definition Remove (fs : fsys) (path : string) : option oserr * fsys :=
  match files fs !! path with
  | None => (Some ENOENT, fs)
  | Some _ =>
      if decide (path ∈ wfail fs) then (Some EIO, fs)
      else (None, {| files := delete path (files fs);
                     rfail := rfail fs; wfail := wfail fs |})
  end.

(** [strings.HasSuffix] *)
Definition hasSuffix (s suffix : string) : bool :=
  let ls := String.length s in
  let lx := String.length suffix in
  (lx <=? ls)%nat && String.eqb (String.substring (ls - lx) lx s) suffix.

(** ** PersistStrategy *)

Record PersistStrategy := {
  Interval : Z;             (* time.Duration, nanoseconds *)
  MaxCount : Z;             (* uint32 *)
  DropOnExceed : bool;
  DuplicateReplace : bool
}.

Definition defaultPersistStrategy : PersistStrategy :=
  {| Interval := 1000000000; MaxCount := 0;
     DropOnExceed := false; DuplicateReplace := true |}.

(** The strategy a constructor keeps: the default one for a nil pointer. *)
Definition strategyOrDefault (s : option PersistStrategy) : PersistStrategy :=
  match s with Some s => s | None => defaultPersistStrategy end.

(** ** nonePersist: no persist storage *)

Module Nop.

Record nonePersist := NonePersist {}.

Section methods.
Context `{Codec}.

Definition Name (_ : nonePersist) : string := "nonePersist".
Definition Store (_ : nonePersist) (key : string) (p : option Packet)
  : option error := None.
Definition Load (_ : nonePersist) (key : string) : option Packet * bool :=
  (None, false).
Definition Delete (_ : nonePersist) (key : string) : option error := None.
Definition Destroy (_ : nonePersist) : option error := None.

End methods.
End Nop.

(** ** memPersist: the in memory persist method

    The methods' [m == nil] guards are left out: [NewMemPersist] never
    returns a nil receiver. *)

Module Mem.

Section methods.
Context `{Codec}.

Record memPersist := {
  data : gmap string (option Packet);   (* *sync.Map *)
  n : Z;                                (* uint32 *)
  strategy : PersistStrategy
}.

Definition NewMemPersist (s : option PersistStrategy) : memPersist :=
  {| data := ∅; n := 0; strategy := strategyOrDefault s |}.

Definition Name (_ : memPersist) : string := "MemPersist".

(** [Store]: the drop test comes first; then [LoadOrStore] inserts a fresh
    key and counts it, and a present key is overwritten only under
    [DuplicateReplace]. *)
Definition Store (m : memPersist) (key : string) (p : option Packet)
  : option error * memPersist :=
  if (0 <? MaxCount (strategy m))
     && (MaxCount (strategy m) <=? n m)
     && DropOnExceed (strategy m)
  then (Some ErrPacketDroppedByStrategy, m)
  else
    match data m !! key with
    | None =>
        (None, {| data := <[key := p]> (data m);
                  n := wrap32 (n m + 1);
                  strategy := strategy m |})
    | Some _ =>
        if DuplicateReplace (strategy m)
        then (None, {| data := <[key := p]> (data m);
                       n := n m; strategy := strategy m |})
        else (None, m)
    end.

(** [Load]: a stored nil packet is found ([nil, true]). *)
Definition Load (m : memPersist) (key : string) : option Packet * bool :=
  match data m !! key with
  | Some (Some p) => (Some p, true)
  | Some None => (None, true)
  | None => (None, false)
  end.

Definition Delete (m : memPersist) (key : string)
  : option error * memPersist :=
  (None, {| data := delete key (data m); n := n m; strategy := strategy m |}).

Definition Destroy (m : memPersist) : option error * memPersist :=
  (None, {| data := ∅; n := n m; strategy := strategy m |}).

End methods.
End Mem.

(** ** filePersist: the file persist method

    One file per key, [dirPath/key.mqtt]; with a positive [Interval] a
    [Store] only fills [inMemBuf] and the worker writes the files later. *)

Module File.

Definition fileSuffix : string := ".mqtt".

Section methods.
Context `{Codec} `{PathOps}.

Record filePersist := {
  dirPath : string;
  inMemBuf : gmap string (option Packet);   (* *sync.Map *)
  inMemSize : Z;                            (* uint32 *)
  strategy : PersistStrategy;
  n : Z                                     (* uint32 *)
}.

(** [NewFilePersist].  The walk that should count the packet files calls
    its function on [dirPath] first.  For a directory, and for a path that
    is not there, the function answers [filepath.SkipDir], which ends the
    walk at the root: no file below is visited.  Only when [dirPath] is
    itself a regular file named [*.mqtt] does [n] start at 1. *)
Definition NewFilePersist (dir : string) (s : option PersistStrategy)
  (fs : fsys) : filePersist :=
  {| dirPath := dir; inMemBuf := ∅; inMemSize := 0;
     strategy := strategyOrDefault s;
     n := match files fs !! dir with
          | Some _ => if hasSuffix dir fileSuffix then 1 else 0
          | None => 0
          end |}.

Definition Name (_ : filePersist) : string := "FilePersist".

Definition getFilename (m : filePersist) (key : string) : string :=
  pathJoin (dirPath m) (key ++ fileSuffix)%string.

Definition getPacketFromFile (fs : fsys) (path : string) : error + Packet :=
  match ReadFile fs path with
  | inl e => inl (PathError e)
  | inr content =>
      match Decode V311 content with
      | None => inl DecodeError
      | Some packet => inr packet
      end
  end.

(** [exists]: only a not-exist error of [os.Open] means "no such file". *)
Definition exists_ (m : filePersist) (key : string) (fs : fsys) : bool :=
  match Open fs (getFilename m key) with
  | Some ENOENT => false
  | _ => true
  end.

(** [store]: a nil packet is not written; after a successful write [n]
    goes up and [inMemSize] goes down by one, both as [uint32]. *)
Definition store (m : filePersist) (key : string) (p : option Packet)
  (fs : fsys) : option error * filePersist * fsys :=
  match p with
  | None => (None, m, fs)
  | Some pkt =>
      match WriteFile fs (getFilename m key) (Bytes pkt) with
      | inl e => (Some (PathError e), m, fs)
      | inr fs' =>
          (None,
           {| dirPath := dirPath m; inMemBuf := inMemBuf m;
              inMemSize := wrap32 (inMemSize m - 1);
              strategy := strategy m;
              n := wrap32 (n m + 1) |},
           fs')
      end
  end.

(** [Store] starts the worker (in a goroutine, after returning) exactly
    when it buffers into an empty buffer. *)
Definition schedulesWorker (m : filePersist) (key : string) (fs : fsys)
  : bool :=
  negb ((0 <? MaxCount (strategy m)) && DropOnExceed (strategy m)
        && (MaxCount (strategy m) <=? wrap32 (n m + inMemSize m)))
  && (negb (exists_ m key fs) || DuplicateReplace (strategy m))
  && (0 <? Interval (strategy m))
  && (inMemSize m =? 0).

Definition Store (m : filePersist) (key : string) (p : option Packet)
  (fs : fsys) : option error * filePersist * fsys :=
  if (0 <? MaxCount (strategy m)) && DropOnExceed (strategy m)
     && (MaxCount (strategy m) <=? wrap32 (n m + inMemSize m))
  then (Some ErrPacketDroppedByStrategy, m, fs)
  else if negb (exists_ m key fs) || DuplicateReplace (strategy m)
  then
    if 0 <? Interval (strategy m)
    then (None,
          {| dirPath := dirPath m;
             inMemBuf := <[key := p]> (inMemBuf m);
             inMemSize := wrap32 (inMemSize m + 1);
             strategy := strategy m; n := n m |},
          fs)
    else store m key p fs
  else (None, m, fs).

(** [Load] reads the file; every failure is "not found". *)
Definition Load (m : filePersist) (key : string) (fs : fsys)
  : option Packet * bool :=
  match getPacketFromFile fs (getFilename m key) with
  | inl _ => (None, false)
  | inr packet => (Some packet, true)
  end.

(** [Delete] removes [dirPath/key]. *)
Definition Delete (m : filePersist) (key : string) (fs : fsys)
  : option error * filePersist * fsys :=
  let '(e, fs') := Remove fs (pathJoin (dirPath m) key) in
  (PathError <$> e, m, fs').

(** One round of [worker] after its sleep: every non-nil packet of the
    buffer goes through [store], whose error is dropped, and its key is
    deleted from the buffer afterwards.  [sync.Map.Range] fixes no order;
    the model takes the order of [map_to_list]. *)
Definition workerStep (acc : filePersist * fsys * list string)
  (kv : string * option Packet) : filePersist * fsys * list string :=
  let '(m, fs, persistedKeys) := acc in
  match kv.2 with
  | None => (m, fs, persistedKeys)
  | Some p =>
      let '(_, m', fs') := store m kv.1 (Some p) fs in
      (m', fs', (persistedKeys ++ [kv.1])%list)
  end.

Definition workerRound (m : filePersist) (fs : fsys) : filePersist * fsys :=
  let '(m', fs', persistedKeys) :=
    foldl workerStep (m, fs, []) (map_to_list (inMemBuf m)) in
  ({| dirPath := dirPath m';
      inMemBuf := foldr delete (inMemBuf m') persistedKeys;
      inMemSize := inMemSize m'; strategy := strategy m'; n := n m' |},
   fs').

(** [worker] calls itself while [inMemSize] is positive; [fuel] bounds the
    number of rounds. *)
Fixpoint worker (fuel : nat) (m : filePersist) (fs : fsys)
  : filePersist * fsys :=
  match fuel with
  | O => (m, fs)
  | S fuel' =>
      let '(m', fs') := workerRound m fs in
      if 0 <? inMemSize m' then worker fuel' m' fs' else (m', fs')
  end.

End methods.
End File.

(** ** The PersistMethod interface

    [Store], [Load] and [Delete] of the Go interface, over the file system
    so that one signature fits the three backends.  [Name] and [Range]
    play no part below, and [Destroy] is left to the backends that have
    one in the model: [filePersist.Destroy] removes a directory tree,
    which a file system of regular files does not describe. *)

Class PersistMethod `{Codec} (T : Type) := {
  Store : T → string → option Packet → fsys → option error * T * fsys;
  Load : T → string → fsys → option Packet * bool;
  Delete : T → string → fsys → option error * T * fsys
}.

#[global] Instance nonePersistMethod `{Codec}
  : PersistMethod Nop.nonePersist := {
  Store m key p fs := (Nop.Store m key p, m, fs);
  Load m key fs := Nop.Load m key;
  Delete m key fs := (Nop.Delete m key, m, fs)
}.

#[global] Instance memPersistMethod `{Codec}
  : PersistMethod Mem.memPersist := {
  Store m key p fs := let '(e, m') := Mem.Store m key p in (e, m', fs);
  Load m key fs := Mem.Load m key;
  Delete m key fs := let '(e, m') := Mem.Delete m key in (e, m', fs)
}.

#[global] Instance filePersistMethod `{Codec} `{PathOps}
  : PersistMethod File.filePersist := {
  Store := File.Store;
  Load := File.Load;
  Delete := File.Delete
}.

(** [store(K,P)] followed immediately by [load(K)] returns [P]. *)
Definition storeThenLoad `{PersistMethod T} (b : T) (fs : fsys)
  (key : string) (p : option Packet) : Prop :=
  let '(_, b', fs') := Store b key p fs in
  Load b' key fs' = (p, true).

(** Storing [P1] and then [P2] under [K]: the outcomes of the two stores
    and of the [load(K)] that follows. *)
Definition storeTwice `{PersistMethod T} (b : T) (fs : fsys)
  (key : string) (p1 p2 : option Packet)
  : option error * option error * (option Packet * bool) :=
  let '(e1, b1, fs1) := Store b key p1 fs in
  let '(e2, b2, fs2) := Store b1 key p2 fs1 in
  (e1, e2, Load b2 key fs2).

(** [delete(K)], then [load(K)]: the outcome of each. *)
Definition deleteThenLoad `{PersistMethod T} (b : T) (fs : fsys)
  (key : string) : option error * (option Packet * bool) :=
  let '(e, b', fs') := Delete b key fs in
  (e, Load b' key fs').

(** The drop test of [memPersist.Store] and [filePersist.Store] on a count. *)
Definition dropping (s : PersistStrategy) (count : Z) : bool :=
  (0 <? MaxCount s) && DropOnExceed s && (MaxCount s <=? count).

(** ** Histories of a memPersist *)

Module MemTrace.
Section trace.
Context `{Codec}.

Inductive op :=
| OpStore (key : string) (p : option Packet)
| OpLoad (key : string)
| OpDelete (key : string)
| OpDestroy.

Definition step (m : Mem.memPersist) (o : op) : Mem.memPersist :=
  match o with
  | OpStore key p => (Mem.Store m key p).2
  | OpLoad _ => m
  | OpDelete key => (Mem.Delete m key).2
  | OpDestroy => (Mem.Destroy m).2
  end.

Definition run (m : Mem.memPersist) (ops : list op) : Mem.memPersist :=
  foldl step m ops.

(** The keys some [Store] of the history has accepted (returned nil for). *)
Fixpoint stored (m : Mem.memPersist) (ops : list op) : gset string :=
  match ops with
  | [] => ∅
  | o :: ops' =>
      match o with
      | OpStore key p =>
          match (Mem.Store m key p).1 with
          | None => {[key]} ∪ stored (step m o) ops'
          | Some _ => stored (step m o) ops'
          end
      | _ => stored (step m o) ops'
      end
  end.

End trace.
End MemTrace.

(** ** The broker: handshake, registry, listeners *)

Module Broker.

Definition Second : Z := 1000000000.

(** Modelled from the spec: libmqtt's connect packet type is declared
    outside these sources; it carries the client identifier and the
    keepalive interval in seconds. *)
Record ConnPacket := {
  ClientID : string;
  Keepalive : Z
}.

(** What decoding the first packet of a connection yields: an error, a
    connect packet, or a packet of another type (the type assertion to
    [*ConnPacket] fails). *)
Inductive decoded :=
| DecodeErr
| DecodedConn (connPkt : ConnPacket)
| DecodedOther.

(** A [net.Conn]: its remote address and what its peer sends first, as
    the decoder of each protocol version reads it. *)
Record netConn := {
  remoteAddr : string;
  firstPacket : ProtoVersion → decoded
}.

(** The service part of [config]. *)
Record config := {
  version : ProtoVersion;
  listen : string;
  tcpPort : Z; tcpsPort : Z; wsPort : Z; wssPort : Z;
  maxTcp : Z; maxTcps : Z; maxWs : Z; maxWss : Z;
  graceShutdownTime : Z
}.

(** [connImpl] of the connection file; channels and context left out. *)
Record connImpl := {
  conn : netConn;
  connVersion : ProtoVersion;
  connPkt : ConnPacket
}.

Definition newConn (v : ProtoVersion) (c : netConn) (p : ConnPacket)
  : connImpl :=
  {| conn := c; connVersion := v; connPkt := p |}.

(** [connImpl] of the worker file, the value type of [connections]. *)
Record workerConn := {
  wconn : netConn;
  wconnPkt : ConnPacket
}.

(** What the broker does to the outside, in program order. *)
Inductive event :=
| LogError (msg : string)
| LogDebug (msg : string)
| LogInfo (msg : string)
| ConnClose (c : netConn)                 (* conn.Close() *)
| GoHandleConnRecv (c : connImpl)         (* go c.handleConnRecv() *)
| GoHandleConnSend (c : connImpl)         (* go c.handleConnSend() *)
| GoHandleConn (c : netConn)              (* go handleConn(conn) *)
| GoListen (transport : string)           (* go initXListen() *)
| ListenerClose (addr : string)           (* tcpService.Close() *)
| GoShutdown (addr : string) (timeout : Z). (* go wsService.Shutdown(ctx) *)

(** [connections]: the registry, a [sync.Map]. *)
Abbreviation registry := (gmap string workerConn).

(** [handleConn]: both arms of the version switch decode with
    [conf.version]; a decode error logs and returns; another packet type
    logs, closes and returns; a connect packet starts the two loops.  The
    registry is passed through: storing the connection is a TODO. *)
Definition handleConn (conf : config) (connections : registry) (c : netConn)
  : registry * list event :=
  match firstPacket c (version conf) with
  | DecodeErr => (connections, [LogError "connection error"])
  | DecodedOther =>
      (connections, [LogError "Expect connect packet"; ConnClose c])
  | DecodedConn p =>
      let ci := newConn V311 c p in
      (connections, [GoHandleConnRecv ci; GoHandleConnSend ci])
  end.

(** [handleWS]: [upgrade] is the outcome of the websocket upgrade; the
    deferred close runs when [handleConn] has returned. *)
Definition handleWS (conf : config) (connections : registry)
  (upgrade : option netConn) : registry * list event :=
  match upgrade with
  | None => (connections, [LogError "establish ws connection fail"])
  | Some c =>
      let '(connections', evs) := handleConn conf connections c in
      (connections', evs ++ [ConnClose c])
  end.

(** [tcpWorker]: decodes with V5 and stores the connection under the
    empty string. *)
Definition tcpWorker (conf : config) (connections : registry) (c : netConn)
  : registry * list event :=
  match firstPacket c V5 with
  | DecodeErr => (connections, [LogError "connection error"])
  | DecodedOther =>
      (connections, [LogError "expect connect packet"; ConnClose c])
  | DecodedConn p =>
      (<["" := {| wconn := c; wconnPkt := p |}]> connections, [])
  end.

(** The package-level services; [None] is nil. *)
Record services := {
  tcpService : option string;
  tcpsService : option string;
  wsService : option string;
  wssService : option string
}.

Definition noServices : services :=
  {| tcpService := None; tcpsService := None;
     wsService := None; wssService := None |}.

Definition addrOf (conf : config) (port : Z) : string :=
  (listen conf ++ ":" ++ pretty port)%string.

(** The accept loop of [initTCPListen], over the outcomes of the
    successive [Accept] calls ([None] is an error). *)
Fixpoint acceptLoop (what : string) (accepts : list (option netConn))
  : list event :=
  match accepts with
  | [] => []
  | None :: rest =>
      LogError ("accept " ++ what ++ " connection failed")%string
      :: acceptLoop what rest
  | Some c :: rest =>
      LogDebug ("accepted " ++ what ++ " connection")%string
      :: GoHandleConn c :: acceptLoop what rest
  end.

(** [initTCPListen] and its three siblings, once the address, the
    certificate and the socket are there (a failure of those panics or
    exits).  Each binds its listener or server with [:=] to a variable of
    its own, so the package-level service of the same name is not
    assigned: the services come back as they went in. *)
Definition initTCPListen (conf : config) (g : services)
  (accepts : list (option netConn)) : services * list event :=
  let tcpService := Some (addrOf conf (tcpPort conf)) in
  (g, LogDebug "tcp service listening" :: acceptLoop "tcp" accepts).

Definition initTCPSListen (conf : config) (g : services)
  (accepts : list (option netConn)) : services * list event :=
  let tcpsService := Some (addrOf conf (tcpsPort conf)) in
  (g, LogDebug "tcps service listening" :: acceptLoop "tcps" accepts).

Definition initWSListen (conf : config) (g : services)
  : services * list event :=
  let wsService := Some (addrOf conf (wsPort conf)) in
  (g, [LogDebug "ws service listening"]).

Definition initWSSListen (conf : config) (g : services)
  : services * list event :=
  let wssService := Some (addrOf conf (wssPort conf)) in
  (g, [LogDebug "wss service listening"]).

(** [destroy]: closes and shuts down the services that are not nil. *)
Definition destroy (timeout : Z) (g : services) : list event :=
  (match tcpService g with Some l => [ListenerClose l] | None => [] end)
  ++ (match tcpsService g with Some l => [ListenerClose l] | None => [] end)
  ++ (match wsService g with Some s => [GoShutdown s timeout] | None => [] end)
  ++ (match wssService g with Some s => [GoShutdown s timeout] | None => [] end).

(** The services once [Init] has started the enabled listeners. *)
Definition servicesAfterInit (conf : config) : services :=
  let g0 := noServices in
  let g1 := if 0 <? tcpPort conf then (initTCPListen conf g0 []).1 else g0 in
  let g2 := if 0 <? tcpsPort conf then (initTCPSListen conf g1 []).1 else g1 in
  let g3 := if 0 <? wsPort conf then (initWSListen conf g2).1 else g2 in
  if 0 <? wssPort conf then (initWSSListen conf g3).1 else g3.

(** [Init]: starts a listener per positive port, then on the exit signal
    logs and calls [destroy] with ten seconds. *)
Definition startListeners (conf : config) : list event :=
  (if 0 <? tcpPort conf then [GoListen "tcp"] else [])
  ++ (if 0 <? tcpsPort conf then [GoListen "tcps"] else [])
  ++ (if 0 <? wsPort conf then [GoListen "ws"] else [])
  ++ (if 0 <? wssPort conf then [GoListen "wss"] else []).

Definition onExit (conf : config) : list event :=
  LogInfo "exiting mqtt services"
  :: destroy (10 * Second) (servicesAfterInit conf).

Definition Init (conf : config) : list event :=
  startListeners conf ++ onExit conf.

(** The connections handed to [handleConn] among some events. *)
Definition handled (evs : list event) : list netConn :=
  omap (λ e, match e with GoHandleConn c => Some c | _ => None end) evs.

Definition isClose (e : event) : bool :=
  match e with
  | ConnClose _ | ListenerClose _ | GoShutdown _ _ => true
  | _ => false
  end.

End Broker.

(** ** Iterating and batching

    The parts of the backends that walk over many records. *)

Module MemIter.
Section range.
Context `{Codec}.

(** The loop of [sync.Map.Range] under [memPersist.Range]: [f] is called
    on one record after the other while it answers true.  The assertion
    [value.(Packet)] has no second result, so a stored nil packet panics.
    The result is the list of calls made and whether the loop panicked. *)
Fixpoint rangeOver (f : string → Packet → bool)
  (records : list (string * option Packet))
  : list (string * Packet) * bool :=
  match records with
  | [] => ([], false)
  | (key, None) :: _ => ([], true)
  | (key, Some p) :: rest =>
      if f key p
      then let '(calls, panicked) := rangeOver f rest in
           ((key, p) :: calls, panicked)
      else ([(key, p)], false)
  end.

(** [memPersist.Range]: nothing happens for a nil function.
    [sync.Map.Range] fixes no order; the model takes that of
    [map_to_list]. *)
Definition Range (m : Mem.memPersist) (f : option (string → Packet → bool))
  : list (string * Packet) * bool :=
  match f with
  | None => ([], false)
  | Some f => rangeOver f (map_to_list (Mem.data m))
  end.

End range.
End MemIter.

Module FileBatch.
Section batch.
Context `{Codec} `{PathOps}.

(** A caller storing a list of records one after the other, keeping the
    error of each [Store]. *)
Definition storeStep (acc : File.filePersist * fsys * list (option error))
  (kp : string * option Packet)
  : File.filePersist * fsys * list (option error) :=
  let '(m, fs, errs) := acc in
  let '(e, m', fs') := File.Store m kp.1 kp.2 fs in
  (m', fs', errs ++ [e]).

Definition storeAll (m : File.filePersist) (fs : fsys)
  (kps : list (string * option Packet))
  : File.filePersist * fsys * list (option error) :=
  foldl storeStep (m, fs, []) kps.

(** The keys a round of the worker collects in [persistedKeys]: those of
    the non-nil packets, in the order walked. *)
Definition persisted (l : list (string * option Packet)) : list string :=
  omap (λ kv, match kv.2 with Some _ => Some kv.1 | None => None end) l.

(** [worker] as a run that either returns or is still recursing when
    [fuel] rounds are over ([None]). *)
Fixpoint workerRun (fuel : nat) (m : File.filePersist) (fs : fsys)
  : option (File.filePersist * fsys) :=
  match fuel with
  | O => None
  | S fuel' =>
      let '(m', fs') := File.workerRound m fs in
      if 0 <? File.inMemSize m' then workerRun fuel' m' fs'
      else Some (m', fs')
  end.

End batch.
End FileBatch.

(** The registry after [tcpWorker] has served some connections in turn. *)
Definition registryAfter (conf : Broker.config)
  (connections : gmap string Broker.workerConn) (cs : list Broker.netConn)
  : gmap string Broker.workerConn :=
  foldl (λ reg c, (Broker.tcpWorker conf reg c).1) connections cs.

(** ** A small codec and path instance

    The two ping packets of [ping.go] with their two-byte encodings, and
    [path.Join] on clean relative names: enough to run the model. *)

Module Demo.

Inductive pingPacket := PingReqPacket | PingRespPacket.

Definition pingBytes (p : pingPacket) : list byte :=
  match p with
  | PingReqPacket => [xc0; x00]
  | PingRespPacket => [xd0; x00]
  end.

Definition pingDecode (_ : ProtoVersion) (bs : list byte)
  : option pingPacket :=
  match bs with
  | [xc0; x00] => Some PingReqPacket
  | [xd0; x00] => Some PingRespPacket
  | _ => None
  end.

#[global] Instance codec : Codec :=
  {| Packet := pingPacket; Bytes := pingBytes; Decode := pingDecode |}.

#[global] Instance paths : PathOps :=
  {| pathJoin d k := (d ++ "/" ++ k)%string |}.

Definition req : option (@Packet codec) := Some PingReqPacket.
Definition resp : option (@Packet codec) := Some PingRespPacket.

(** Synchronous file strategy: one record at most, drop beyond. *)
Definition syncOne : PersistStrategy :=
  {| Interval := 0; MaxCount := 1;
     DropOnExceed := true; DuplicateReplace := true |}.

Definition memOne : PersistStrategy :=
  {| Interval := 0; MaxCount := 1;
     DropOnExceed := true; DuplicateReplace := true |}.

Definition syncKeep : PersistStrategy :=
  {| Interval := 0; MaxCount := 0;
     DropOnExceed := false; DuplicateReplace := false |}.

(** File backends on the empty directory [d]. *)
Definition fileSync : File.filePersist :=
  File.NewFilePersist "d" (Some syncOne) emptyfs.
Definition fileKeep : File.filePersist :=
  File.NewFilePersist "d" (Some syncKeep) emptyfs.
Definition fileBuffered : File.filePersist :=
  File.NewFilePersist "d" None emptyfs.

(** A file system whose device fails every read of [d/k.mqtt]. *)
Definition unreadable : fsys :=
  {| files := {[ "d/k.mqtt" := [xc0; x00] ]};
     rfail := {[ "d/k.mqtt" ]}; wfail := ∅ |}.

(** A file system whose device fails every write of [d/k.mqtt]. *)
Definition unwritable : fsys :=
  {| files := ∅; rfail := ∅; wfail := {[ "d/k.mqtt" ]} |}.

Definition client (id : string) : Broker.netConn :=
  {| Broker.remoteAddr := "10.0.0.1:5000";
     Broker.firstPacket _ :=
       Broker.DecodedConn {| Broker.ClientID := id; Broker.Keepalive := 10 |} |}.

Definition garbled : Broker.netConn :=
  {| Broker.remoteAddr := "10.0.0.2:5000";
     Broker.firstPacket _ := Broker.DecodeErr |}.

Definition conf (cap : Z) (grace : Z) : Broker.config :=
  {| Broker.version := V311; Broker.listen := "0.0.0.0";
     Broker.tcpPort := 1883; Broker.tcpsPort := 8883;
     Broker.wsPort := 8083; Broker.wssPort := 18083;
     Broker.maxTcp := cap; Broker.maxTcps := cap;
     Broker.maxWs := cap; Broker.maxWss := cap;
     Broker.graceShutdownTime := grace |}.

End Demo.

(** * Properties *)

(** ** Arithmetic of the counters *)

Lemma wrap32_range z : 0 ≤ wrap32 z < 2 ^ 32.
Proof. unfold wrap32. apply Z.mod_pos_bound. lia. Qed.

Lemma wrap32_small z : 0 ≤ z < 2 ^ 32 → wrap32 z = z.
Proof. intros Hz. unfold wrap32. apply Z.mod_small. exact Hz. Qed.

(** A successful [store] leaves the wrapped sum [n + inMemSize] alone. *)
Lemma wrap32_up_down a b :
  wrap32 (wrap32 (a + 1) + wrap32 (b - 1)) = wrap32 (a + b).
Proof.
  unfold wrap32. rewrite <- Z.add_mod by lia. f_equal. lia.
Qed.

(** ** memPersist *)

Section mem_facts.
Context `{Codec}.

Lemma mem_drop_test (m : Mem.memPersist) :
  (0 <? MaxCount (Mem.strategy m)) && (MaxCount (Mem.strategy m) <=? Mem.n m)
  && DropOnExceed (Mem.strategy m)
  = dropping (Mem.strategy m) (Mem.n m).
Proof.
  unfold dropping.
  destruct (0 <? _), (_ <=? _), (DropOnExceed _); reflexivity.
Qed.

Lemma mem_Store_dropped m key p :
  dropping (Mem.strategy m) (Mem.n m) = true →
  Mem.Store m key p = (Some ErrPacketDroppedByStrategy, m).
Proof. intros Hd. unfold Mem.Store. rewrite mem_drop_test, Hd. reflexivity. Qed.

Lemma mem_Store_fresh m key p :
  dropping (Mem.strategy m) (Mem.n m) = false →
  Mem.data m !! key = None →
  Mem.Store m key p
  = (None, {| Mem.data := <[key := p]> (Mem.data m);
              Mem.n := wrap32 (Mem.n m + 1);
              Mem.strategy := Mem.strategy m |}).
Proof.
  intros Hd Hk. unfold Mem.Store. rewrite mem_drop_test, Hd, Hk. reflexivity.
Qed.

Lemma mem_Store_present m key p q :
  dropping (Mem.strategy m) (Mem.n m) = false →
  Mem.data m !! key = Some q →
  Mem.Store m key p
  = (None, if DuplicateReplace (Mem.strategy m)
           then {| Mem.data := <[key := p]> (Mem.data m);
                   Mem.n := Mem.n m; Mem.strategy := Mem.strategy m |}
           else m).
Proof.
  intros Hd Hk. unfold Mem.Store. rewrite mem_drop_test, Hd, Hk.
  destruct (DuplicateReplace _); reflexivity.
Qed.

Lemma mem_Load_inserted (d : gmap string (option Packet)) c s key p :
  Mem.Load {| Mem.data := <[key := p]> d; Mem.n := c; Mem.strategy := s |} key
  = (p, true).
Proof.
  unfold Mem.Load. simpl. rewrite lookup_insert_eq. destruct p; reflexivity.
Qed.

Lemma mem_Store_strategy m key p :
  Mem.strategy (Mem.Store m key p).2 = Mem.strategy m.
Proof.
  unfold Mem.Store.
  destruct (_ && _ && _); [reflexivity|].
  destruct (Mem.data m !! key); [|reflexivity].
  destruct (DuplicateReplace _); reflexivity.
Qed.

End mem_facts.

(** ** filePersist *)

Section file_facts.
Context `{Codec} `{PathOps}.

Lemma file_drop_test (m : File.filePersist) :
  (0 <? MaxCount (File.strategy m)) && DropOnExceed (File.strategy m)
  && (MaxCount (File.strategy m) <=? wrap32 (File.n m + File.inMemSize m))
  = dropping (File.strategy m) (wrap32 (File.n m + File.inMemSize m)).
Proof. reflexivity. Qed.

Lemma file_Store_dropped m key p fs :
  dropping (File.strategy m) (wrap32 (File.n m + File.inMemSize m)) = true →
  File.Store m key p fs = (Some ErrPacketDroppedByStrategy, m, fs).
Proof. intros Hd. unfold File.Store. rewrite file_drop_test, Hd. reflexivity. Qed.

(** Synchronous mode: a [Store] that passes the two tests is [store]. *)
Lemma file_Store_sync m key p fs :
  Interval (File.strategy m) ≤ 0 →
  dropping (File.strategy m) (wrap32 (File.n m + File.inMemSize m)) = false →
  File.exists_ m key fs = false ∨ DuplicateReplace (File.strategy m) = true →
  File.Store m key p fs = File.store m key p fs.
Proof.
  intros Hi Hd Hdup. unfold File.Store. rewrite file_drop_test, Hd.
  assert (negb (File.exists_ m key fs) || DuplicateReplace (File.strategy m)
          = true) as ->.
  { destruct Hdup as [-> | ->]; [reflexivity | apply orb_true_r]. }
  destruct (Z.ltb_spec 0 (Interval (File.strategy m))); [lia | reflexivity].
Qed.

(** Synchronous mode: a present key is left alone without replacement. *)
Lemma file_Store_keep m key p fs :
  dropping (File.strategy m) (wrap32 (File.n m + File.inMemSize m)) = false →
  File.exists_ m key fs = true →
  DuplicateReplace (File.strategy m) = false →
  File.Store m key p fs = (None, m, fs).
Proof.
  intros Hd He Hr. unfold File.Store. rewrite file_drop_test, Hd, He, Hr.
  reflexivity.
Qed.

(** Buffered mode: [Store] does not touch the file system. *)
Lemma file_Store_buffered_fs m key p fs :
  0 < Interval (File.strategy m) →
  (File.Store m key p fs).2 = fs
  ∧ File.dirPath (File.Store m key p fs).1.2 = File.dirPath m
  ∧ (File.Store m key p fs).1.1
    = if dropping (File.strategy m) (wrap32 (File.n m + File.inMemSize m))
      then Some ErrPacketDroppedByStrategy else None.
Proof.
  intros Hi. unfold File.Store. rewrite file_drop_test.
  destruct (dropping _ _); [done|].
  destruct (negb _ || _); [|done].
  destruct (Z.ltb_spec 0 (Interval (File.strategy m))); [done | lia].
Qed.

Lemma file_store_written m key pkt fs :
  File.getFilename m key ∉ wfail fs →
  File.store m key (Some pkt) fs
  = (None,
     {| File.dirPath := File.dirPath m; File.inMemBuf := File.inMemBuf m;
        File.inMemSize := wrap32 (File.inMemSize m - 1);
        File.strategy := File.strategy m;
        File.n := wrap32 (File.n m + 1) |},
     {| files := <[File.getFilename m key := Bytes pkt]> (files fs);
        rfail := rfail fs; wfail := wfail fs |}).
Proof.
  intros Hw. unfold File.store, WriteFile.
  destruct (decide (_ ∈ wfail fs)); [contradiction | reflexivity].
Qed.

Lemma file_store_failed m key pkt fs :
  File.getFilename m key ∈ wfail fs →
  File.store m key (Some pkt) fs = (Some (PathError EIO), m, fs).
Proof.
  intros Hw. unfold File.store, WriteFile.
  destruct (decide (_ ∈ wfail fs)); [reflexivity | contradiction].
Qed.

(** Reading back what [WriteFile] has put under the key's file name. *)
Lemma file_Load_written m m' key pkt fs :
  File.dirPath m' = File.dirPath m →
  File.getFilename m key ∉ rfail fs →
  Decode V311 (Bytes pkt) = Some pkt →
  File.Load m' key
    {| files := <[File.getFilename m key := Bytes pkt]> (files fs);
       rfail := rfail fs; wfail := wfail fs |}
  = (Some pkt, true).
Proof.
  intros Hdir Hr Hdec.
  unfold File.Load, File.getPacketFromFile, ReadFile, File.getFilename in *.
  rewrite Hdir. simpl.
  destruct (decide (_ ∈ rfail fs)); [contradiction|].
  rewrite lookup_insert_eq, Hdec. reflexivity.
Qed.

Lemma file_exists_written m m' key content fs :
  File.dirPath m' = File.dirPath m →
  File.getFilename m key ∉ rfail fs →
  File.exists_ m' key
    {| files := <[File.getFilename m key := content]> (files fs);
       rfail := rfail fs; wfail := wfail fs |}
  = true.
Proof.
  intros Hdir Hr. unfold File.exists_, Open, File.getFilename in *.
  rewrite Hdir. simpl.
  destruct (decide (_ ∈ rfail fs)); [contradiction|].
  rewrite lookup_insert_eq. reflexivity.
Qed.

(** A key without a file loads as absent. *)
Lemma file_Load_absent m key fs :
  File.exists_ m key fs = false → File.Load m key fs = (None, false).
Proof.
  unfold File.exists_, File.Load, File.getPacketFromFile, Open, ReadFile.
  destruct (decide (_ ∈ rfail fs)); [discriminate|].
  destruct (files fs !! _); [discriminate | reflexivity].
Qed.

End file_facts.

(** ** Store, then load *)

(** C1, as the code has it: for the in-memory backend, and for the file
    backend in synchronous mode when the packet is not nil, the write and
    the read succeed and the codec decodes the packet's bytes back to it,
    [store(K,P)] followed immediately by [load(K)] returns [P], provided
    the drop test does not fire and the key is fresh or replaced.  The no-op
    backend accepts the store and loads absent; in buffered mode a store
    leaves the file system alone, so a key without a file still loads
    absent. *)
Theorem C1_store_then_load `{Codec} `{PathOps} :
  (∀ (m : Mem.memPersist) fs key p,
      dropping (Mem.strategy m) (Mem.n m) = false →
      Mem.data m !! key = None ∨ DuplicateReplace (Mem.strategy m) = true →
      storeThenLoad m fs key p)
  ∧ (∀ (m : File.filePersist) fs key pkt,
      Interval (File.strategy m) ≤ 0 →
      dropping (File.strategy m) (wrap32 (File.n m + File.inMemSize m))
      = false →
      File.exists_ m key fs = false
      ∨ DuplicateReplace (File.strategy m) = true →
      File.getFilename m key ∉ wfail fs →
      File.getFilename m key ∉ rfail fs →
      Decode V311 (Bytes pkt) = Some pkt →
      storeThenLoad m fs key (Some pkt))
  ∧ (∀ (m : Nop.nonePersist) fs key p,
      (Store m key p fs).1.1 = None
      ∧ Load (Store m key p fs).1.2 key (Store m key p fs).2 = (None, false))
  ∧ (∀ (m : File.filePersist) fs key p,
      0 < Interval (File.strategy m) →
      File.exists_ m key fs = false →
      (Store m key p fs).2 = fs
      ∧ Load (Store m key p fs).1.2 key (Store m key p fs).2 = (None, false)).
Proof.
  split; [|split; [|split]].
  - intros m fs key p Hd Hdup. unfold storeThenLoad. simpl.
    destruct (Mem.data m !! key) as [q|] eqn:Hk.
    + destruct Hdup as [Hdup | Hdup]; [discriminate|].
      rewrite (mem_Store_present m key p q Hd Hk), Hdup.
      apply mem_Load_inserted.
    + rewrite (mem_Store_fresh m key p Hd Hk). apply mem_Load_inserted.
  - intros m fs key pkt Hi Hd Hdup Hw Hr Hdec. unfold storeThenLoad. simpl.
    rewrite (file_Store_sync m key (Some pkt) fs Hi Hd Hdup).
    rewrite (file_store_written m key pkt fs Hw).
    apply file_Load_written; [reflexivity | exact Hr | exact Hdec].
  - intros m fs key p. simpl. unfold Nop.Store, Nop.Load. split; reflexivity.
  - intros m fs key p Hi He. simpl.
    destruct (file_Store_buffered_fs m key p fs Hi) as (Hfs & Hdir & _).
    rewrite Hfs. split; [reflexivity|].
    rewrite <- (file_Load_absent m key fs He).
    unfold File.Load, File.getFilename. rewrite Hdir. reflexivity.
Qed.

(** The four parts of C1 at the two ping packets. *)
Lemma C1_store_then_load_witness :
  storeThenLoad (Mem.NewMemPersist None) emptyfs "k" Demo.req
  ∧ storeThenLoad Demo.fileSync emptyfs
      "k" Demo.req
  ∧ (Store Demo.fileBuffered "k" Demo.req emptyfs).2 = emptyfs.
Proof.
  destruct (C1_store_then_load (H := Demo.codec) (H0 := Demo.paths))
    as (Hmem & Hsync & _ & Hbuf).
  split; [|split].
  - apply Hmem; [reflexivity | left; reflexivity].
  - apply (Hsync _ emptyfs "k" Demo.PingReqPacket);
      [simpl; lia | reflexivity | left; reflexivity
      | apply not_elem_of_empty | apply not_elem_of_empty | reflexivity].
  - apply (Hbuf Demo.fileBuffered emptyfs "k" Demo.req);
      [simpl; lia | reflexivity].
Defined.

(** C1 as stated fails on the no-op backend: the store is accepted and
    the load that follows finds nothing. *)
Lemma C1_counterexample_nonePersist :
  ¬ storeThenLoad Nop.NonePersist emptyfs "k" Demo.req.
Proof. unfold storeThenLoad. simpl. unfold Nop.Load. discriminate. Qed.

(** ** Storing a key twice *)

(** C4, as the code has it: in the in-memory backend, and in the file
    backend in synchronous mode with non-nil packets, successful writes and
    reads and a codec that decodes each packet's bytes back to it, storing
    a fresh key [K] with [P1] and then with [P2], the drop test firing at
    neither store, both stores report success and [load(K)] is [P1] when
    [DuplicateReplace] is off and [P2] when it is on.  On the no-op backend
    both stores report success and [load(K)] is absent. *)
Theorem C4_duplicate_policy `{Codec} `{PathOps} :
  (∀ (m : Mem.memPersist) fs key p1 p2,
      Mem.data m !! key = None →
      dropping (Mem.strategy m) (Mem.n m) = false →
      dropping (Mem.strategy m) (wrap32 (Mem.n m + 1)) = false →
      storeTwice m fs key p1 p2
      = (None, None,
         (if DuplicateReplace (Mem.strategy m) then p2 else p1, true)))
  ∧ (∀ (m : File.filePersist) fs key pkt1 pkt2,
      Interval (File.strategy m) ≤ 0 →
      File.exists_ m key fs = false →
      dropping (File.strategy m) (wrap32 (File.n m + File.inMemSize m))
      = false →
      File.getFilename m key ∉ wfail fs →
      File.getFilename m key ∉ rfail fs →
      Decode V311 (Bytes pkt1) = Some pkt1 →
      Decode V311 (Bytes pkt2) = Some pkt2 →
      storeTwice m fs key (Some pkt1) (Some pkt2)
      = (None, None,
         (Some (if DuplicateReplace (File.strategy m) then pkt2 else pkt1),
          true)))
  ∧ (∀ (m : Nop.nonePersist) fs key p1 p2,
      storeTwice m fs key p1 p2 = (None, None, (None, false))).
Proof.
  split; [|split].
  - intros m fs key p1 p2 Hk Hd1 Hd2. unfold storeTwice. simpl.
    rewrite (mem_Store_fresh m key p1 Hd1 Hk).
    set (m1 := {| Mem.data := _ |}).
    assert (Mem.data m1 !! key = Some p1) as Hk1
      by (subst m1; simpl; apply lookup_insert_eq).
    rewrite (mem_Store_present m1 key p2 p1 Hd2 Hk1). subst m1. simpl.
    destruct (DuplicateReplace (Mem.strategy m)).
    + rewrite mem_Load_inserted. reflexivity.
    + rewrite mem_Load_inserted. reflexivity.
  - intros m fs key pkt1 pkt2 Hi He Hd Hw Hr Hdec1 Hdec2.
    unfold storeTwice. simpl.
    rewrite (file_Store_sync m key (Some pkt1) fs Hi Hd (or_introl He)).
    rewrite (file_store_written m key pkt1 fs Hw).
    set (m1 := {| File.dirPath := _ |}). set (fs1 := {| files := _ |}).
    assert (dropping (File.strategy m1)
              (wrap32 (File.n m1 + File.inMemSize m1)) = false) as Hd1.
    { subst m1. simpl. rewrite wrap32_up_down. exact Hd. }
    assert (File.exists_ m1 key fs1 = true) as He1
      by (apply file_exists_written; [reflexivity | exact Hr]).
    destruct (DuplicateReplace (File.strategy m)) eqn:Hrep.
    + rewrite (file_Store_sync m1 key (Some pkt2) fs1 Hi Hd1 (or_intror Hrep)).
      rewrite (file_store_written m1 key pkt2 fs1 Hw).
      f_equal. apply file_Load_written; [reflexivity | exact Hr | exact Hdec2].
    + rewrite (file_Store_keep m1 key (Some pkt2) fs1 Hd1 He1 Hrep).
      f_equal. apply file_Load_written; [reflexivity | exact Hr | exact Hdec1].
  - intros m fs key p1 p2. reflexivity.
Qed.

(** C4 at the two ping packets: memory with replacement, file without. *)
Lemma C4_duplicate_policy_witness :
  storeTwice (Mem.NewMemPersist None) emptyfs "k" Demo.req Demo.resp
  = (None, None, (Demo.resp, true))
  ∧ storeTwice Demo.fileKeep emptyfs "k"
      Demo.req Demo.resp
    = (None, None, (Demo.req, true)).
Proof.
  destruct (C4_duplicate_policy (H := Demo.codec) (H0 := Demo.paths))
    as (Hmem & Hfile & _).
  split.
  - apply (Hmem (Mem.NewMemPersist None) emptyfs "k" Demo.req Demo.resp);
      reflexivity.
  - apply (Hfile Demo.fileKeep emptyfs "k"
             Demo.PingReqPacket Demo.PingRespPacket);
      [simpl; lia | reflexivity | reflexivity
      | apply not_elem_of_empty | apply not_elem_of_empty
      | reflexivity | reflexivity].
Defined.

(** C4 as stated fails on the no-op backend: after the two stores the
    load is neither [P1] nor [P2]. *)
Lemma C4_counterexample_nonePersist :
  (storeTwice Nop.NonePersist emptyfs "k" Demo.req Demo.resp).2
  ≠ (Demo.req, true)
  ∧ (storeTwice Nop.NonePersist emptyfs "k" Demo.req Demo.resp).2
    ≠ (Demo.resp, true).
Proof. split; discriminate. Qed.

(** ** I/O failures of the file backend *)

(** C8, as the code has it: in synchronous mode a failed write makes
    [Store] return the write's error, and a failed removal makes [Delete]
    return the removal's error, both distinct from nil and from the
    dropped outcome; [Load] answers absent for every read or decode
    failure; in buffered mode [Store] returns nil or dropped without
    touching the file system. *)
Theorem C8_io_failures `{Codec} `{PathOps} :
  (∀ (m : File.filePersist) fs key pkt,
      Interval (File.strategy m) ≤ 0 →
      dropping (File.strategy m) (wrap32 (File.n m + File.inMemSize m))
      = false →
      File.exists_ m key fs = false
      ∨ DuplicateReplace (File.strategy m) = true →
      File.getFilename m key ∈ wfail fs →
      Store m key (Some pkt) fs = (Some (PathError EIO), m, fs))
  ∧ (∀ (m : File.filePersist) fs key e,
      (Remove fs (pathJoin (File.dirPath m) key)).1 = Some e →
      (Delete m key fs).1.1 = Some (PathError e)
      ∧ PathError e ≠ ErrPacketDroppedByStrategy)
  ∧ (∀ (m : File.filePersist) fs key e,
      File.getPacketFromFile fs (File.getFilename m key) = inl e →
      Load m key fs = (None, false))
  ∧ (∀ (m : File.filePersist) fs key p,
      0 < Interval (File.strategy m) →
      (Store m key p fs).2 = fs
      ∧ (Store m key p fs).1.1
        = if dropping (File.strategy m)
               (wrap32 (File.n m + File.inMemSize m))
          then Some ErrPacketDroppedByStrategy else None).
Proof.
  split; [|split; [|split]].
  - intros m fs key pkt Hi Hd Hdup Hw. simpl.
    rewrite (file_Store_sync m key (Some pkt) fs Hi Hd Hdup).
    apply file_store_failed, Hw.
  - intros m fs key e Hrm. simpl. unfold File.Delete.
    destruct (Remove fs _) as [e' fs']. simpl in *. subst e'.
    split; [reflexivity | discriminate].
  - intros m fs key e Hget. simpl. unfold File.Load. rewrite Hget.
    reflexivity.
  - intros m fs key p Hi. simpl.
    destruct (file_Store_buffered_fs m key p fs Hi) as (Hfs & _ & He).
    split; assumption.
Qed.

(** C8 on a device that fails the writes, the reads or the removal. *)
Lemma C8_io_failures_witness :
  Store Demo.fileSync "k" Demo.req
    Demo.unwritable
  = (Some (PathError EIO), Demo.fileSync,
     Demo.unwritable)
  ∧ (Delete Demo.fileBuffered "k" emptyfs).1.1
    = Some (PathError ENOENT)
  ∧ Load Demo.fileBuffered "k" Demo.unreadable = (None, false)
  ∧ (Store Demo.fileBuffered "k" Demo.req Demo.unwritable).2
    = Demo.unwritable.
Proof.
  destruct (C8_io_failures (H := Demo.codec) (H0 := Demo.paths))
    as (Hstore & Hdel & Hload & Hbuf).
  split; [|split; [|split]].
  - apply (Hstore Demo.fileSync
             Demo.unwritable "k" Demo.PingReqPacket);
      [simpl; lia | reflexivity | left; reflexivity
      | cbn; apply elem_of_singleton_2; reflexivity].
  - apply (proj1 (Hdel Demo.fileBuffered emptyfs "k" ENOENT
                    eq_refl)).
  - apply (Hload Demo.fileBuffered Demo.unreadable "k"
             (PathError EIO)).
    reflexivity.
  - apply (Hbuf Demo.fileBuffered Demo.unwritable "k" Demo.req).
    simpl. lia.
Defined.

(** C8 as stated fails for [Load]: with the packet file on disk and the
    device failing its read, the caller gets the answer of a missing key. *)
Lemma C8_counterexample_load :
  ReadFile Demo.unreadable "d/k.mqtt" = inl EIO
  ∧ Load Demo.fileBuffered "k" Demo.unreadable
    = Load Demo.fileBuffered "k" emptyfs.
Proof. split; reflexivity. Qed.

(** ** The count of the file backend in synchronous mode *)

(** In synchronous mode no [Store] changes the wrapped sum the drop test
    looks at: [store] adds one to [n] and takes one from [inMemSize]. *)
Lemma file_sync_sum_preserved `{Codec} `{PathOps}
  (m : File.filePersist) key p fs :
  Interval (File.strategy m) ≤ 0 →
  wrap32 (File.n (File.Store m key p fs).1.2
          + File.inMemSize (File.Store m key p fs).1.2)
  = wrap32 (File.n m + File.inMemSize m)
  ∧ File.strategy (File.Store m key p fs).1.2 = File.strategy m.
Proof.
  intros Hi. unfold File.Store.
  destruct (_ && _ && _); [done|].
  destruct (negb _ || _); [|done].
  destruct (Z.ltb_spec 0 (Interval (File.strategy m))); [lia|].
  unfold File.store. destruct p as [pkt|]; [|done].
  destruct (WriteFile fs _ _); [done|]. simpl.
  split; [apply wrap32_up_down | reflexivity].
Qed.

(** [store] never changes the wrapped sum, whether it writes or not. *)
Lemma file_store_sum `{Codec} `{PathOps} (m : File.filePersist) key p fs :
  wrap32 (File.n (File.store m key p fs).1.2
          + File.inMemSize (File.store m key p fs).1.2)
  = wrap32 (File.n m + File.inMemSize m).
Proof.
  unfold File.store. destruct p as [pkt|]; [|done].
  destruct (WriteFile fs _ _); [done|]. simpl. apply wrap32_up_down.
Qed.

(** In buffered mode a [Store] that passes the two tests adds one to the
    wrapped sum, and a round of the worker leaves the sum alone: there
    the sum counts the stores accepted so far. *)
Lemma file_buffered_sum_counts `{Codec} `{PathOps}
  (m : File.filePersist) key p fs :
  0 < Interval (File.strategy m) →
  dropping (File.strategy m) (wrap32 (File.n m + File.inMemSize m)) = false →
  File.exists_ m key fs = false ∨ DuplicateReplace (File.strategy m) = true →
  wrap32 (File.n (File.Store m key p fs).1.2
          + File.inMemSize (File.Store m key p fs).1.2)
  = wrap32 (File.n m + File.inMemSize m + 1).
Proof.
  intros Hi Hd Hdup. unfold File.Store. rewrite file_drop_test, Hd.
  assert (negb (File.exists_ m key fs) || DuplicateReplace (File.strategy m)
          = true) as ->.
  { destruct Hdup as [-> | ->]; [reflexivity | apply orb_true_r]. }
  destruct (Z.ltb_spec 0 (Interval (File.strategy m))); [|lia]. simpl.
  unfold wrap32. rewrite Z.add_mod_idemp_r by lia. f_equal. lia.
Qed.

Lemma file_workerRound_sum `{Codec} `{PathOps} (m : File.filePersist) fs :
  wrap32 (File.n (File.workerRound m fs).1
          + File.inMemSize (File.workerRound m fs).1)
  = wrap32 (File.n m + File.inMemSize m).
Proof.
  unfold File.workerRound.
  assert (∀ l acc,
    wrap32 (File.n (foldl File.workerStep acc l).1.1
            + File.inMemSize (foldl File.workerStep acc l).1.1)
    = wrap32 (File.n acc.1.1 + File.inMemSize acc.1.1)) as Hfold.
  { induction l as [|kv l IH]; intros acc; [reflexivity|].
    simpl. rewrite IH. destruct acc as [[m1 fs1] keys].
    unfold File.workerStep. destruct kv.2 as [pkt|]; [|reflexivity].
    pose proof (file_store_sum m1 kv.1 (Some pkt) fs1) as Hs.
    destruct (File.store m1 kv.1 (Some pkt) fs1) as [[e m2] fs2].
    exact Hs. }
  specialize (Hfold (map_to_list (File.inMemBuf m)) (m, fs, [])).
  destruct (foldl File.workerStep (m, fs, []) (map_to_list (File.inMemBuf m)))
    as [[m1 fs1] keys].
  exact Hfold.
Qed.

(** C2 on the file backend in synchronous mode with [MaxCount = 1] and
    [DropOnExceed]: after the store of ["a"] has succeeded, [n] is 1 and
    [inMemSize] has wrapped to [2^32 - 1]; their sum wraps to 0, the store
    of the second key ["b"] is not dropped and ["b"] loads. *)
Theorem C2_file_sync_store_beyond_max :
  let m0 := Demo.fileSync in
  let r1 := Store m0 "a" Demo.req emptyfs in
  let r2 := Store r1.1.2 "b" Demo.resp r1.2 in
  r1.1.1 = None
  ∧ File.n r1.1.2 = 1 ∧ File.inMemSize r1.1.2 = 2 ^ 32 - 1
  ∧ r2.1.1 = None
  ∧ Load r2.1.2 "b" r2.2 = (Demo.resp, true).
Proof. repeat split; reflexivity. Qed.

(** ** Delete *)

(** On the no-op and in-memory backends [delete] returns nil, the load
    that follows is absent, and a second [delete] changes nothing. *)
Lemma delete_idempotent_none_mem `{Codec} :
  (∀ (m : Nop.nonePersist) fs key,
      deleteThenLoad m fs key = (None, (None, false)))
  ∧ (∀ (m : Mem.memPersist) fs key,
      deleteThenLoad m fs key = (None, (None, false))
      ∧ (Mem.Delete (Mem.Delete m key).2 key) = Mem.Delete m key).
Proof.
  split.
  - intros m fs key. reflexivity.
  - intros m fs key. split.
    + unfold deleteThenLoad. simpl. unfold Mem.Load, Mem.Delete. simpl.
      rewrite lookup_delete_eq. reflexivity.
    + unfold Mem.Delete. simpl. rewrite delete_delete_eq. reflexivity.
Qed.

(** [filePersist.Delete] removes [dirPath/key], which is not the file
    [Load] reads when the two names differ. *)
Lemma file_Delete_keeps_Load `{Codec} `{PathOps}
  (m : File.filePersist) key fs :
  pathJoin (File.dirPath m) key ≠ File.getFilename m key →
  (deleteThenLoad m fs key).2 = File.Load m key fs.
Proof.
  intros Hne. unfold deleteThenLoad. simpl. unfold File.Delete, Remove.
  destruct (files fs !! pathJoin (File.dirPath m) key) eqn:Hf; [|reflexivity].
  destruct (decide (_ ∈ wfail fs)); [reflexivity|]. simpl.
  unfold File.Load, File.getPacketFromFile, ReadFile. simpl.
  rewrite lookup_delete_ne by exact Hne. reflexivity.
Qed.

(** C3 on the file backend: with ["k"] stored in [d/k.mqtt], [Delete]
    asks to remove [d/k], returns the not-exist error, and ["k"] still
    loads; deleting a key that was never stored returns the same error. *)
Theorem C3_file_delete_wrong_name :
  let m0 := Demo.fileSync in
  let r1 := Store m0 "k" Demo.req emptyfs in
  r1.1.1 = None
  ∧ deleteThenLoad r1.1.2 r1.2 "k"
    = (Some (PathError ENOENT), (Demo.req, true))
  ∧ (Delete m0 "j" emptyfs).1.1 = Some (PathError ENOENT).
Proof. repeat split; reflexivity. Qed.

(** ** The count of the in-memory backend *)

#[local] Set Warnings "-clear-no-such-hyp".

Section mem_count.
Context `{Codec}.
Variable s : PersistStrategy.
Hypothesis Hmax : 0 < MaxCount s < 2 ^ 32.
Hypothesis Hdrop : DropOnExceed s = true.

Lemma dropping_spec c : dropping s c = true ↔ MaxCount s ≤ c.
Proof.
  unfold dropping. rewrite Hdrop.
  destruct (Z.ltb_spec 0 (MaxCount s)); [|lia]. simpl.
  destruct (Z.leb_spec (MaxCount s) c); split; (lia || discriminate || done).
Qed.

Lemma not_dropping_spec c : dropping s c = false ↔ c < MaxCount s.
Proof.
  destruct (dropping s c) eqn:Hd.
  - apply dropping_spec in Hd. split; [discriminate | lia].
  - split; [|done]. intros _.
    destruct (Z.lt_ge_cases c (MaxCount s)) as [Hlt | Hge]; [exact Hlt|].
    apply dropping_spec in Hge. congruence.
Qed.

(** One operation keeps the strategy and never lowers the count. *)
Lemma step_count (m : Mem.memPersist) (o : MemTrace.op) :
  Mem.strategy m = s → 0 ≤ Mem.n m ≤ MaxCount s →
  Mem.strategy (MemTrace.step m o) = s
  ∧ Mem.n m ≤ Mem.n (MemTrace.step m o) ≤ MaxCount s.
Proof.
  intros Hs Hn. destruct o as [key p | key | key |]; simpl;
    try (split; [exact Hs | lia]).
  destruct (dropping (Mem.strategy m) (Mem.n m)) eqn:Hd.
  - rewrite (mem_Store_dropped m key p Hd). simpl. split; [exact Hs | lia].
  - assert (Mem.n m < MaxCount s) as Hlt
      by (apply not_dropping_spec; rewrite <- Hs; exact Hd).
    destruct (Mem.data m !! key) as [q|] eqn:Hk.
    + rewrite (mem_Store_present m key p q Hd Hk).
      destruct (DuplicateReplace _); simpl; (split; [exact Hs | lia]).
    + rewrite (mem_Store_fresh m key p Hd Hk). simpl.
      rewrite wrap32_small by lia. split; [exact Hs | lia].
Qed.

Lemma run_count (ops : list MemTrace.op) : ∀ m : Mem.memPersist,
  Mem.strategy m = s → 0 ≤ Mem.n m ≤ MaxCount s →
  Mem.strategy (MemTrace.run m ops) = s
  ∧ Mem.n m ≤ Mem.n (MemTrace.run m ops) ≤ MaxCount s.
Proof.
  induction ops as [|o ops IH]; intros m Hs Hn.
  - simpl. split; [exact Hs | lia].
  - destruct (step_count m o Hs Hn) as (Hs1 & Hn1).
    destruct (IH (MemTrace.step m o) Hs1 ltac:(lia)) as (Hs2 & Hn2).
    unfold MemTrace.run in *. simpl. split; [exact Hs2 | lia].
Qed.

(** Every key some [Store] has accepted was counted: the count is at
    least the number of distinct keys accepted so far. *)
Lemma stored_count (ops : list MemTrace.op) :
  ∀ (m : Mem.memPersist) (seen : gset string),
    Mem.strategy m = s →
    dom (Mem.data m) ⊆ seen →
    Z.of_nat (size seen) ≤ Mem.n m ≤ MaxCount s →
    Z.of_nat (size (seen ∪ MemTrace.stored m ops))
    ≤ Mem.n (MemTrace.run m ops).
Proof.
  induction ops as [|o ops IH]; intros m seen Hs Hdom Hn.
  - simpl. rewrite (right_id_L ∅ (∪)). unfold MemTrace.run. simpl. lia.
  - unfold MemTrace.run. simpl. fold (MemTrace.run (MemTrace.step m o) ops).
    destruct o as [key p | key | key |].
    + destruct (dropping (Mem.strategy m) (Mem.n m)) eqn:Hd.
      * simpl. rewrite (mem_Store_dropped m key p Hd). simpl.
        apply IH; assumption.
      * assert (Mem.n m < MaxCount s) as Hlt
          by (apply not_dropping_spec; rewrite <- Hs; exact Hd).
        destruct (Mem.data m !! key) as [q|] eqn:Hk.
        -- assert (key ∈ seen) as Hin.
           { apply Hdom, elem_of_dom. rewrite Hk. eauto. }
           simpl. rewrite (mem_Store_present m key p q Hd Hk). simpl.
           replace (seen ∪ ({[key]} ∪ MemTrace.stored
                       (if DuplicateReplace (Mem.strategy m)
                        then {| Mem.data := <[key:=p]> (Mem.data m);
                                Mem.n := Mem.n m;
                                Mem.strategy := Mem.strategy m |}
                        else m) ops))
             with (seen ∪ MemTrace.stored
                     (if DuplicateReplace (Mem.strategy m)
                      then {| Mem.data := <[key:=p]> (Mem.data m);
                              Mem.n := Mem.n m;
                              Mem.strategy := Mem.strategy m |}
                      else m) ops)
             by set_solver.
           apply IH.
           ++ destruct (DuplicateReplace _); assumption.
           ++ destruct (DuplicateReplace _); [|assumption]. simpl.
              rewrite dom_insert_L. set_solver.
           ++ destruct (DuplicateReplace _); simpl; lia.
        -- simpl. rewrite (mem_Store_fresh m key p Hd Hk). simpl.
           rewrite (assoc_L (∪)). apply IH.
           ++ exact Hs.
           ++ simpl. rewrite dom_insert_L. set_solver.
           ++ simpl. rewrite wrap32_small by lia.
              pose proof (size_union_alt seen {[key]}) as Hsz.
              assert (size (({[key]} : gset string) ∖ seen) ≤ 1)%nat.
              { etransitivity; [apply subseteq_size|];
                  [apply subseteq_difference_l; reflexivity|].
                rewrite size_singleton. reflexivity. }
              lia.
    + simpl. apply IH; assumption.
    + simpl. apply IH; [exact Hs | | simpl; lia].
      simpl. rewrite dom_delete_L. set_solver.
    + simpl. apply IH; [exact Hs | | simpl; lia].
      simpl. rewrite dom_empty_L. set_solver.
Qed.

End mem_count.

(** C10: [Delete] and [Destroy] leave the count of a [memPersist] as it
    is, and [Store] leaves it or adds one (as [uint32]).  With
    [MaxCount = n > 0] and [DropOnExceed], along every history from
    [NewMemPersist] the count never goes down, and once [n] distinct keys
    have been accepted by [Store], every later [Store] returns the
    dropped outcome, whatever has been deleted or destroyed since. *)
Theorem C10_mem_count_only_grows `{Codec} :
  (∀ (m : Mem.memPersist) key, Mem.n (Mem.Delete m key).2 = Mem.n m)
  ∧ (∀ m : Mem.memPersist, Mem.n (Mem.Destroy m).2 = Mem.n m)
  ∧ (∀ (m : Mem.memPersist) key p,
      Mem.n (Mem.Store m key p).2 = Mem.n m
      ∨ Mem.n (Mem.Store m key p).2 = wrap32 (Mem.n m + 1))
  ∧ (∀ s ops o,
      0 < MaxCount s < 2 ^ 32 → DropOnExceed s = true →
      Mem.n (MemTrace.run (Mem.NewMemPersist (Some s)) ops)
      ≤ Mem.n (MemTrace.step
                 (MemTrace.run (Mem.NewMemPersist (Some s)) ops) o))
  ∧ (∀ s ops later key p,
      0 < MaxCount s < 2 ^ 32 → DropOnExceed s = true →
      MaxCount s
      ≤ Z.of_nat (size (MemTrace.stored (Mem.NewMemPersist (Some s)) ops)) →
      (Mem.Store
         (MemTrace.run (MemTrace.run (Mem.NewMemPersist (Some s)) ops) later)
         key p).1
      = Some ErrPacketDroppedByStrategy).
Proof.
  split; [|split; [|split; [|split]]].
  - reflexivity.
  - reflexivity.
  - intros m key p. unfold Mem.Store.
    destruct (_ && _ && _); [left; reflexivity|].
    destruct (Mem.data m !! key); [|right; reflexivity].
    destruct (DuplicateReplace _); left; reflexivity.
  - intros s ops o Hmax Hdrop.
    destruct (run_count s Hmax Hdrop ops (Mem.NewMemPersist (Some s)) eq_refl)
      as (Hs & Hn); [simpl; lia|].
    apply (step_count s Hmax Hdrop _ o Hs). simpl in Hn. lia.
  - intros s ops later key p Hmax Hdrop Hfull.
    set (m0 := Mem.NewMemPersist (Some s)) in *.
    destruct (run_count s Hmax Hdrop ops m0 eq_refl) as (Hs1 & Hn1);
      [simpl; lia|].
    pose proof (stored_count s Hmax Hdrop ops m0 ∅ eq_refl) as Hcnt.
    rewrite (left_id_L ∅ (∪)) in Hcnt.
    assert (dom (Mem.data m0) ⊆ (∅ : gset string)) as Hdom
      by (subst m0; simpl; rewrite dom_empty_L; reflexivity).
    assert (Z.of_nat (size (∅ : gset string)) ≤ Mem.n m0 ≤ MaxCount s) as Hn0
      by (subst m0; rewrite size_empty; simpl; lia).
    specialize (Hcnt Hdom Hn0).
    destruct (run_count s Hmax Hdrop later (MemTrace.run m0 ops) Hs1)
      as (Hs2 & Hn2); [simpl in Hn1; lia|].
    rewrite mem_Store_dropped; [reflexivity|].
    rewrite Hs2. apply dropping_spec; [exact Hmax | exact Hdrop | lia].
Qed.

(** C10 with [MaxCount = 1]: one key stored, then deleted, the store
    destroyed, and the store of another key is dropped. *)
Lemma C10_mem_count_only_grows_witness :
  Mem.n (MemTrace.run (Mem.NewMemPersist (Some Demo.memOne)) [])
  ≤ Mem.n (MemTrace.step
             (MemTrace.run (Mem.NewMemPersist (Some Demo.memOne)) [])
             (MemTrace.OpStore "a" Demo.req))
  ∧ (Mem.Store
       (MemTrace.run
          (MemTrace.run (Mem.NewMemPersist (Some Demo.memOne))
             [MemTrace.OpStore "a" Demo.req])
          [MemTrace.OpDelete "a"; MemTrace.OpDestroy])
       "b" Demo.resp).1
    = Some ErrPacketDroppedByStrategy.
Proof.
  destruct (C10_mem_count_only_grows (H := Demo.codec))
    as (_ & _ & _ & Hmono & Hfull).
  split.
  - apply (Hmono Demo.memOne [] (MemTrace.OpStore "a" Demo.req));
      [simpl; lia | reflexivity].
  - apply (Hfull Demo.memOne [MemTrace.OpStore "a" Demo.req]
             [MemTrace.OpDelete "a"; MemTrace.OpDestroy] "b" Demo.resp);
      [simpl; lia | reflexivity | vm_compute; discriminate].
Defined.

(** ** The handshake *)

Section handshake.
Import Broker.

(** A first packet of another type: logged, and the connection closed. *)
Lemma handleConn_other_closes conf connections c :
  firstPacket c (version conf) = DecodedOther →
  (handleConn conf connections c).2
  = [LogError "Expect connect packet"; ConnClose c].
Proof. intros Hp. unfold handleConn. rewrite Hp. reflexivity. Qed.

(** Over a websocket the deferred close runs whatever [handleConn] did. *)
Lemma handleWS_closes conf connections c :
  ConnClose c ∈ (handleWS conf connections (Some c)).2.
Proof.
  unfold handleWS. destruct (handleConn conf connections c) as [r evs].
  simpl. apply elem_of_app. right. apply list_elem_of_singleton. reflexivity.
Qed.

(** No path of the handshake writes to the connection: the events of
    [handleConn] are logs, a close, or the start of the two loops. *)
Lemma handleConn_events conf connections c e :
  e ∈ (handleConn conf connections c).2 →
  match e with
  | LogError _ | ConnClose _ | GoHandleConnRecv _ | GoHandleConnSend _ => True
  | _ => False
  end.
Proof.
  unfold handleConn. destruct (firstPacket c (version conf)); simpl;
    intros He; repeat (apply elem_of_cons in He as [-> | He]; [exact I|]);
    apply elem_of_nil in He; contradiction.
Qed.

(** C6 on a raw connection whose first packet does not decode:
    [handleConn] logs the error and returns; the connection is not
    closed. *)
Theorem C6_decode_failure_leaves_conn_open conf connections c :
  firstPacket c (version conf) = DecodeErr →
  (handleConn conf connections c).2 = [LogError "connection error"]
  ∧ ConnClose c ∉ (handleConn conf connections c).2.
Proof.
  intros Hp. unfold handleConn. rewrite Hp. simpl. split; [reflexivity|].
  intros Hin. apply list_elem_of_singleton in Hin. discriminate.
Qed.

Lemma C6_decode_failure_leaves_conn_open_witness :
  (handleConn (Demo.conf 0 10) ∅ Demo.garbled).2
  = [LogError "connection error"]
  ∧ ConnClose Demo.garbled ∉ (handleConn (Demo.conf 0 10) ∅ Demo.garbled).2.
Proof.
  apply (C6_decode_failure_leaves_conn_open (Demo.conf 0 10) ∅ Demo.garbled).
  reflexivity.
Defined.

(** C5 on a well-formed connect packet with a client identifier that is
    not empty: [tcpWorker] stores the connection under the empty string,
    leaves the entry of the client identifier as it was and closes
    nothing; [handleConn] leaves the whole registry as it was. *)
Theorem C5_registered_under_empty_key conf connections c p :
  firstPacket c V5 = DecodedConn p →
  ClientID p ≠ "" →
  (tcpWorker conf connections c).1 !! ""
  = Some {| wconn := c; wconnPkt := p |}
  ∧ (tcpWorker conf connections c).1 !! ClientID p
    = connections !! ClientID p
  ∧ (tcpWorker conf connections c).2 = []
  ∧ (handleConn conf connections c).1 = connections.
Proof.
  intros Hp Hid. unfold tcpWorker. rewrite Hp. simpl.
  split; [apply lookup_insert_eq|].
  split; [apply lookup_insert_ne; congruence|].
  split; [reflexivity|].
  unfold handleConn. destruct (firstPacket c (version conf)); reflexivity.
Qed.

Lemma C5_registered_under_empty_key_witness :
  (tcpWorker (Demo.conf 0 10) ∅ (Demo.client "c1")).1 !! "c1" = None
  ∧ (tcpWorker (Demo.conf 0 10) ∅ (Demo.client "c1")).2 = []
  ∧ (handleConn (Demo.conf 0 10) ∅ (Demo.client "c1")).1 = ∅.
Proof.
  destruct (C5_registered_under_empty_key (Demo.conf 0 10) ∅
              (Demo.client "c1")
              {| ClientID := "c1"; Keepalive := 10 |} eq_refl)
    as (_ & Hid & Hev & Hreg); [discriminate|].
  split; [|split];
    [exact (eq_trans Hid (lookup_empty _)) | exact Hev | exact Hreg].
Defined.

(** Two handshakes with the same client identifier: the second entry
    replaces the first under the empty string and the first connection
    is not closed. *)
Lemma tcpWorker_second_handshake conf connections c1 c2 p1 p2 :
  firstPacket c1 V5 = DecodedConn p1 →
  firstPacket c2 V5 = DecodedConn p2 →
  let r1 := tcpWorker conf connections c1 in
  let r2 := tcpWorker conf r1.1 c2 in
  r2.1 = <["" := {| wconn := c2; wconnPkt := p2 |}]> connections
  ∧ r1.2 ++ r2.2 = [].
Proof.
  intros Hp1 Hp2. unfold tcpWorker. rewrite Hp1. simpl. rewrite Hp2. simpl.
  split; [apply insert_insert_eq | reflexivity].
Qed.

End handshake.

(** ** The supervisor *)

Section supervisor.
Import Broker.

Lemma servicesAfterInit_nil conf : servicesAfterInit conf = noServices.
Proof.
  unfold servicesAfterInit, initTCPListen, initTCPSListen, initWSListen,
    initWSSListen.
  destruct (0 <? tcpPort conf), (0 <? tcpsPort conf), (0 <? wsPort conf),
    (0 <? wssPort conf); reflexivity.
Qed.

(** If the services had been assigned, [destroy] would close the two
    listeners and shut the two servers down with the timeout it is given;
    [onExit] gives it ten seconds, not [graceShutdownTime]. *)
Lemma destroy_assigned (timeout : Z) a b c d :
  destroy timeout {| tcpService := Some a; tcpsService := Some b;
                     wsService := Some c; wssService := Some d |}
  = [ListenerClose a; ListenerClose b;
     GoShutdown c timeout; GoShutdown d timeout].
Proof. reflexivity. Qed.

(** C7 for every configuration: the listeners never assign the
    package-level services, so on the exit signal [destroy] finds them nil,
    and [Init] closes no listener and shuts no server down. *)
Theorem C7_exit_closes_nothing (conf : config) :
  servicesAfterInit conf = noServices
  ∧ onExit conf = [LogInfo "exiting mqtt services"]
  ∧ (∀ e, e ∈ Init conf → isClose e = false).
Proof.
  split; [apply servicesAfterInit_nil|].
  split; [unfold onExit; rewrite servicesAfterInit_nil; reflexivity|].
  intros e. unfold Init, onExit, startListeners.
  rewrite servicesAfterInit_nil. simpl.
  destruct (0 <? tcpPort conf), (0 <? tcpsPort conf), (0 <? wsPort conf),
    (0 <? wssPort conf); simpl; intros He;
    repeat (apply elem_of_cons in He as [-> | He]; [reflexivity|]);
    apply elem_of_nil in He; contradiction.
Qed.

(** The accept loop hands every accepted connection to [handleConn]. *)
Lemma acceptLoop_handles_all what accepts :
  handled (acceptLoop what accepts) = omap id accepts.
Proof.
  induction accepts as [|[c|] rest IH]; simpl.
  - reflexivity.
  - unfold handled in *. simpl. rewrite IH. reflexivity.
  - unfold handled in *. simpl. exact IH.
Qed.

(** C9 for every configuration, whatever the caps: the tcp and tcps
    listeners hand every accepted connection to [handleConn], and no event
    of theirs closes a connection. *)
Theorem C9_caps_not_enforced (conf : config) g accepts :
  handled (initTCPListen conf g accepts).2 = omap id accepts
  ∧ handled (initTCPSListen conf g accepts).2 = omap id accepts
  ∧ (∀ e, e ∈ (initTCPListen conf g accepts).2 → isClose e = false)
  ∧ (∀ e, e ∈ (initTCPSListen conf g accepts).2 → isClose e = false).
Proof.
  assert (∀ what e, e ∈ acceptLoop what accepts → isClose e = false) as Hloop.
  { intros what e. induction accepts as [|[c|] rest IH]; simpl; intros He.
    - apply elem_of_nil in He. contradiction.
    - apply elem_of_cons in He as [-> | He]; [reflexivity|].
      apply elem_of_cons in He as [-> | He]; [reflexivity | auto].
    - apply elem_of_cons in He as [-> | He]; [reflexivity | auto]. }
  unfold initTCPListen, initTCPSListen. simpl.
  split; [apply (acceptLoop_handles_all "tcp")|].
  split; [apply (acceptLoop_handles_all "tcps")|].
  split; intros e He; (apply elem_of_cons in He as [-> | He];
    [reflexivity | eapply Hloop; exact He]).
Qed.

(** With every cap at 1, two connections arrive on the tcp port and both
    are handled. *)
Example two_connections_cap_one :
  handled (initTCPListen (Demo.conf 1 10) noServices
             [Some (Demo.client "c1"); Some (Demo.client "c2")]).2
  = [Demo.client "c1"; Demo.client "c2"].
Proof. reflexivity. Qed.

End supervisor.

(** * Further properties of the code *)

(** ** memPersist: records and count *)

(** X1: storing a fresh key and deleting it again gives the data back as
    it was and makes the key load absent, but the count stays one up. *)
Theorem mem_store_delete_keeps_count `{Codec} (m : Mem.memPersist) key p :
  dropping (Mem.strategy m) (Mem.n m) = false →
  Mem.data m !! key = None →
  Mem.data (Mem.Delete (Mem.Store m key p).2 key).2 = Mem.data m
  ∧ Mem.n (Mem.Delete (Mem.Store m key p).2 key).2 = wrap32 (Mem.n m + 1)
  ∧ Mem.Load (Mem.Delete (Mem.Store m key p).2 key).2 key = (None, false).
Proof.
  intros Hd Hk. rewrite (mem_Store_fresh m key p Hd Hk).
  unfold Mem.Delete, Mem.Load. simpl.
  rewrite (delete_insert_id _ _ _ Hk), Hk. done.
Qed.

Lemma mem_store_delete_keeps_count_witness :
  Mem.data (Mem.Delete (Mem.Store (Mem.NewMemPersist None) "k" Demo.req).2
              "k").2 = ∅
  ∧ Mem.n (Mem.Delete (Mem.Store (Mem.NewMemPersist None) "k" Demo.req).2
             "k").2 = 1.
Proof.
  destruct (mem_store_delete_keeps_count (Mem.NewMemPersist None) "k"
              Demo.req eq_refl eq_refl) as (Hdata & Hn & _).
  split; [exact Hdata | exact Hn].
Defined.

(** X2: [Store] and [Delete] of one key leave what every other key loads
    as it was. *)
Theorem mem_other_keys_untouched `{Codec} (m : Mem.memPersist) key key' p :
  key ≠ key' →
  Mem.Load (Mem.Store m key p).2 key' = Mem.Load m key'
  ∧ Mem.Load (Mem.Delete m key).2 key' = Mem.Load m key'.
Proof.
  intros Hne. split.
  - unfold Mem.Store. destruct (_ && _ && _); [reflexivity|].
    destruct (Mem.data m !! key);
      [destruct (DuplicateReplace _); [|reflexivity]|];
      unfold Mem.Load; simpl; rewrite lookup_insert_ne by exact Hne;
      reflexivity.
  - unfold Mem.Delete, Mem.Load. simpl.
    rewrite lookup_delete_ne by exact Hne. reflexivity.
Qed.

Lemma mem_other_keys_untouched_witness :
  Mem.Load (Mem.Store (Mem.NewMemPersist None) "a" Demo.req).2 "b"
  = (None, false).
Proof.
  apply (proj1 (mem_other_keys_untouched (Mem.NewMemPersist None) "a" "b"
                  Demo.req ltac:(discriminate))).
Defined.

Section bounded.
Context `{Codec}.
Variable s : PersistStrategy.
Hypothesis Hmax : 0 < MaxCount s < 2 ^ 32.
Hypothesis Hdrop : DropOnExceed s = true.



Lemma run_cons (m : Mem.memPersist) o ops :
  MemTrace.run m (o :: ops) = MemTrace.run (MemTrace.step m o) ops.
Proof. reflexivity. Qed.

(** Storing and deleting one key [rounds] times over. *)
Lemma run_churn key p (rounds : nat) : ∀ m : Mem.memPersist,
  Mem.strategy m = s →
  Mem.data m !! key = None →
  0 ≤ Mem.n m ≤ MaxCount s →
  let m' := MemTrace.run m
              (concat (replicate rounds
                         [MemTrace.OpStore key p; MemTrace.OpDelete key])) in
  Mem.strategy m' = s
  ∧ Mem.data m' = Mem.data m
  ∧ Mem.n m' = Z.min (Mem.n m + Z.of_nat rounds) (MaxCount s).
Proof.
  induction rounds as [|rounds IH]; intros m Hs Hk Hn.
  - simpl. split; [exact Hs|]. split; [reflexivity | lia].
  - change (concat (replicate (S rounds)
              [MemTrace.OpStore key p; MemTrace.OpDelete key]))
      with (MemTrace.OpStore key p :: MemTrace.OpDelete key
            :: concat (replicate rounds
                 [MemTrace.OpStore key p; MemTrace.OpDelete key])).
    cbv zeta. rewrite !run_cons. cbn [MemTrace.step].
    destruct (dropping (Mem.strategy m) (Mem.n m)) eqn:Hd.
    + rewrite (mem_Store_dropped m key p Hd). cbn [snd].
      assert (MaxCount s ≤ Mem.n m) as Hfull
        by (apply (dropping_spec s Hmax Hdrop); rewrite <- Hs; exact Hd).
      set (m1 := (Mem.Delete m key).2).
      destruct (IH m1) as (Hs2 & Hd2 & Hn2).
      * exact Hs.
      * subst m1. simpl. apply lookup_delete_eq.
      * subst m1. simpl. lia.
      * split; [exact Hs2|]. split.
        -- rewrite Hd2. subst m1. simpl. apply delete_id, Hk.
        -- rewrite Hn2. subst m1. simpl. lia.
    + assert (Mem.n m < MaxCount s) as Hlt
        by (apply (not_dropping_spec s Hmax Hdrop); rewrite <- Hs; exact Hd).
      rewrite (mem_Store_fresh m key p Hd Hk). cbn [snd].
      set (m1 := (Mem.Delete _ key).2).
      destruct (IH m1) as (Hs2 & Hd2 & Hn2).
      * exact Hs.
      * subst m1. simpl. apply lookup_delete_eq.
      * subst m1. simpl. rewrite wrap32_small by lia. lia.
      * split; [exact Hs2|]. split.
        -- rewrite Hd2. subst m1. simpl. apply delete_insert_id, Hk.
        -- rewrite Hn2. subst m1. simpl. rewrite wrap32_small by lia. lia.
Qed.

End bounded.



(** X4: the count counts insertions, not records.  With [MaxCount > 0]
    and [DropOnExceed], storing and deleting one and the same key
    [rounds] times from [NewMemPersist] leaves no record and a count of
    [min rounds MaxCount]; from [MaxCount] rounds on, every [Store] on the
    empty store is dropped. *)
Theorem mem_one_key_fills `{Codec} s key p (rounds : nat) :
  0 < MaxCount s < 2 ^ 32 → DropOnExceed s = true →
  let m := MemTrace.run (Mem.NewMemPersist (Some s))
             (concat (replicate rounds
                        [MemTrace.OpStore key p; MemTrace.OpDelete key])) in
  Mem.data m = ∅
  ∧ Mem.n m = Z.min (Z.of_nat rounds) (MaxCount s)
  ∧ (MaxCount s ≤ Z.of_nat rounds →
     ∀ key' p', (Mem.Store m key' p').1 = Some ErrPacketDroppedByStrategy).
Proof.
  intros Hmax Hdrop.
  destruct (run_churn s Hmax Hdrop key p rounds (Mem.NewMemPersist (Some s))
              eq_refl (lookup_empty _) ltac:(simpl; lia))
    as (Hs & Hd & Hn).
  simpl in *. split; [exact Hd|]. split; [exact Hn|].
  intros Hfull key' p'. rewrite mem_Store_dropped; [reflexivity|].
  rewrite Hs. apply (dropping_spec s Hmax Hdrop). lia.
Qed.

Lemma mem_one_key_fills_witness :
  Mem.data (MemTrace.run (Mem.NewMemPersist (Some Demo.memOne))
              [MemTrace.OpStore "a" Demo.req; MemTrace.OpDelete "a"]) = ∅
  ∧ (Mem.Store (MemTrace.run (Mem.NewMemPersist (Some Demo.memOne))
                  [MemTrace.OpStore "a" Demo.req; MemTrace.OpDelete "a"])
       "b" Demo.resp).1 = Some ErrPacketDroppedByStrategy.
Proof.
  destruct (mem_one_key_fills Demo.memOne "a" Demo.req 1
              ltac:(simpl; lia) eq_refl) as (Hd & _ & Hfull).
  split; [exact Hd|].
  apply (Hfull ltac:(simpl; lia) "b" Demo.resp).
Defined.


(** ** memPersist.Range *)

Section range_facts.
Context `{Codec}.

(** The calls made are a prefix of the records walked over. *)
Lemma rangeOver_prefix (f : string → Packet → bool) records :
  ∃ rest,
    records
    = (prod_map id Some <$> (MemIter.rangeOver f records).1) ++ rest.
Proof.
  induction records as [|[key [p|]] records IH]; simpl.
  - exists []. reflexivity.
  - destruct (f key p).
    + destruct IH as [rest IH].
      destruct (MemIter.rangeOver f records) as [calls panicked].
      exists rest. cbn in *. congruence.
    + exists records. reflexivity.
  - exists ((key, None) :: records). reflexivity.
Qed.

(** A function that never stops the walk is called on every record when
    none holds a nil packet. *)
Lemma rangeOver_all records :
  Forall (λ kv : string * option Packet, kv.2 ≠ None) records →
  prod_map id Some <$> (MemIter.rangeOver (λ _ _, true) records).1 = records
  ∧ (MemIter.rangeOver (λ _ _, true) records).2 = false.
Proof.
  induction 1 as [|[key [p|]] records Hp _ IH]; simpl.
  - done.
  - destruct (MemIter.rangeOver _ records) as [calls panicked]. cbn in *.
    destruct IH as [IH1 IH2]. split; [f_equal; exact IH1 | exact IH2].
  - simpl in Hp. congruence.
Qed.

(** ... and panics when one does. *)
Lemma rangeOver_nil key records :
  (key, None) ∈ records →
  (MemIter.rangeOver (λ _ _, true) records).2 = true.
Proof.
  induction records as [|[key' [p|]] records IH]; simpl; intros Hin.
  - apply elem_of_nil in Hin. contradiction.
  - apply elem_of_cons in Hin as [Heq | Hin]; [discriminate|].
    specialize (IH Hin).
    destruct (MemIter.rangeOver _ records) as [calls panicked]. exact IH.
  - reflexivity.
Qed.

End range_facts.

(** X5: whatever the function given to [Range], every call it receives
    is for a record of the store with its packet, no key is passed twice,
    and a nil function is never called. *)
Theorem mem_Range_calls_are_records `{Codec} (m : Mem.memPersist)
  (f : string → Packet → bool) :
  (∀ key p, (key, p) ∈ (MemIter.Range m (Some f)).1 →
            Mem.data m !! key = Some (Some p))
  ∧ NoDup (MemIter.Range m (Some f)).1.*1
  ∧ MemIter.Range m None = ([], false).
Proof.
  unfold MemIter.Range.
  destruct (rangeOver_prefix f (map_to_list (Mem.data m))) as [rest Hpre].
  set (calls := (MemIter.rangeOver f (map_to_list (Mem.data m))).1) in *.
  split; [|split; [|reflexivity]].
  - intros key p Hin. apply elem_of_map_to_list. rewrite Hpre.
    apply elem_of_app. left.
    apply (list_elem_of_fmap_2 (prod_map id Some) calls (key, p)), Hin.
  - pose proof (NoDup_fst_map_to_list (Mem.data m)) as Hnd.
    rewrite Hpre, fmap_app in Hnd. apply NoDup_app in Hnd as (Hnd & _ & _).
    rewrite <- list_fmap_compose in Hnd.
    erewrite list_fmap_ext in Hnd; [exact Hnd|].
    intros i [k q] _. reflexivity.
Qed.

(** X6: when no record holds a nil packet, a function that always
    answers true is called on exactly the records of the store, and
    [Range] does not panic. *)
Theorem mem_Range_visits_all `{Codec} (m : Mem.memPersist) :
  (∀ key, Mem.data m !! key ≠ Some None) →
  (MemIter.Range m (Some (λ _ _, true))).2 = false
  ∧ ∀ key p, (key, p) ∈ (MemIter.Range m (Some (λ _ _, true))).1
             ↔ Mem.data m !! key = Some (Some p).
Proof.
  intros Hnonil. unfold MemIter.Range.
  destruct (rangeOver_all (map_to_list (Mem.data m))) as [Hall Hpan].
  { apply Forall_forall. intros [key v] Hin. simpl. intros ->.
    apply elem_of_map_to_list in Hin. exact (Hnonil key Hin). }
  split; [exact Hpan|]. intros key p.
  rewrite <- elem_of_map_to_list.
  split.
  - intros Hin. rewrite <- Hall.
    apply (list_elem_of_fmap_2 (prod_map id Some) _ (key, p)), Hin.
  - intros Hin. rewrite <- Hall in Hin.
    apply list_elem_of_fmap in Hin as ([k q] & Heq & Hin).
    simpl in Heq. inversion Heq. subst. exact Hin.
Qed.

Lemma mem_Range_visits_all_witness :
  (MemIter.Range (Mem.Store (Mem.NewMemPersist None) "a" Demo.req).2
     (Some (λ _ _, true))).2 = false.
Proof.
  apply (mem_Range_visits_all
           (Mem.Store (Mem.NewMemPersist None) "a" Demo.req).2).
  intros key.
  change ((<["a" := Demo.req]> (∅ : gmap string (option Packet))) !! key
          ≠ Some None).
  destruct (decide (key = "a")) as [-> | Hne].
  - rewrite lookup_insert_eq. discriminate.
  - rewrite lookup_insert_ne by congruence. rewrite lookup_empty.
    discriminate.
Defined.

(** X7: once a nil packet has been stored, [Range] with a function that
    always answers true panics. *)
Theorem mem_Range_nil_panics `{Codec} (m : Mem.memPersist) key :
  Mem.data m !! key = Some None →
  (MemIter.Range m (Some (λ _ _, true))).2 = true.
Proof.
  intros Hk. unfold MemIter.Range. apply (rangeOver_nil key).
  apply elem_of_map_to_list. exact Hk.
Qed.

Lemma mem_Range_nil_panics_witness :
  (MemIter.Range (Mem.Store (Mem.NewMemPersist None) "a" None).2
     (Some (λ _ _, true))).2 = true.
Proof.
  apply (mem_Range_nil_panics
           (Mem.Store (Mem.NewMemPersist None) "a" None).2 "a").
  reflexivity.
Defined.

(** ** filePersist: admission *)

(** A [Store] is dropped only when the drop test fires. *)
Lemma file_Store_not_dropped `{Codec} `{PathOps}
  (m : File.filePersist) key p fs :
  dropping (File.strategy m) (wrap32 (File.n m + File.inMemSize m)) = false →
  (File.Store m key p fs).1.1 ≠ Some ErrPacketDroppedByStrategy.
Proof.
  intros Hd. unfold File.Store. rewrite file_drop_test, Hd.
  destruct (negb _ || _); [|discriminate].
  destruct (0 <? _); [discriminate|].
  unfold File.store. destruct p; [|discriminate].
  destruct (WriteFile fs _ _); discriminate.
Qed.

Lemma dropping_zero s : dropping s 0 = false.
Proof.
  unfold dropping. destruct (Z.ltb_spec 0 (MaxCount s)); [|reflexivity].
  destruct (DropOnExceed s); [|reflexivity]. simpl.
  destruct (Z.leb_spec (MaxCount s) 0); [lia | reflexivity].
Qed.

Lemma storeAll_sync_errors `{Codec} `{PathOps} kps :
  ∀ (m : File.filePersist) fs errs,
    Interval (File.strategy m) ≤ 0 →
    dropping (File.strategy m) (wrap32 (File.n m + File.inMemSize m))
    = false →
    Forall (λ e, e ≠ Some ErrPacketDroppedByStrategy) errs →
    Forall (λ e, e ≠ Some ErrPacketDroppedByStrategy)
      (foldl FileBatch.storeStep (m, fs, errs) kps).2.
Proof.
  induction kps as [|[key p] kps IH]; intros m fs errs Hi Hd Herrs;
    [exact Herrs|].
  change (foldl FileBatch.storeStep (m, fs, errs) ((key, p) :: kps))
    with (foldl FileBatch.storeStep
            (FileBatch.storeStep (m, fs, errs) (key, p)) kps).
  assert (FileBatch.storeStep (m, fs, errs) (key, p)
          = ((File.Store m key p fs).1.2, (File.Store m key p fs).2,
             errs ++ [(File.Store m key p fs).1.1])) as ->.
  { unfold FileBatch.storeStep. cbn [fst snd].
    destruct (File.Store m key p fs) as [[e m'] fs']. reflexivity. }
  pose proof (file_Store_not_dropped m key p fs Hd) as Hno.
  destruct (file_sync_sum_preserved m key p fs Hi) as (Hsum & Hstr).
  apply IH.
  - rewrite Hstr. exact Hi.
  - rewrite Hstr, Hsum. exact Hd.
  - apply Forall_app. split; [exact Herrs|].
    apply Forall_cons. split; [exact Hno | apply Forall_nil_2].
Qed.

(** X8: in synchronous mode, on a backend made by [NewFilePersist] for a
    directory, no [Store] of any sequence is ever dropped, whatever
    [MaxCount] and [DropOnExceed] say. *)
Theorem file_sync_never_drops `{Codec} `{PathOps} dir s fs kps :
  Interval s ≤ 0 →
  files fs !! dir = None →
  Forall (λ e, e ≠ Some ErrPacketDroppedByStrategy)
    (FileBatch.storeAll (File.NewFilePersist dir (Some s) fs) fs kps).2.
Proof.
  intros Hi Hdir. unfold FileBatch.storeAll. apply storeAll_sync_errors.
  - exact Hi.
  - unfold File.NewFilePersist. simpl. rewrite Hdir. apply dropping_zero.
  - apply Forall_nil_2.
Qed.

Lemma file_sync_never_drops_witness :
  Forall (λ e, e ≠ Some ErrPacketDroppedByStrategy)
    (FileBatch.storeAll Demo.fileSync emptyfs
       [("a", Demo.req); ("b", Demo.resp); ("c", Demo.req)]).2.
Proof.
  apply (file_sync_never_drops "d" Demo.syncOne emptyfs
           [("a", Demo.req); ("b", Demo.resp); ("c", Demo.req)]);
    [simpl; lia | reflexivity].
Defined.

(** X9: [NewFilePersist] on a directory starts its count at 0 whatever
    the directory holds, so the first [Store] on the new backend is never
    dropped, in either mode. *)
Theorem file_new_ignores_disk `{Codec} `{PathOps} dir s fs key p :
  files fs !! dir = None →
  File.n (File.NewFilePersist dir s fs) = 0
  ∧ (File.Store (File.NewFilePersist dir s fs) key p fs).1.1
    ≠ Some ErrPacketDroppedByStrategy.
Proof.
  intros Hdir. split.
  - unfold File.NewFilePersist. simpl. rewrite Hdir. reflexivity.
  - apply file_Store_not_dropped. unfold File.NewFilePersist. simpl.
    rewrite Hdir. apply dropping_zero.
Qed.

Lemma file_new_ignores_disk_witness :
  File.n (File.NewFilePersist "d" (Some Demo.syncOne)
            {| files := {[ "d/a.mqtt" := [xc0; x00] ]};
               rfail := ∅; wfail := ∅ |}) = 0.
Proof.
  apply (file_new_ignores_disk "d" (Some Demo.syncOne)
           {| files := {[ "d/a.mqtt" := [xc0; x00] ]};
              rfail := ∅; wfail := ∅ |} "b" Demo.resp).
  reflexivity.
Defined.

(** X10: before a flush the duplicate policy sees the disk only.  In
    buffered mode, storing a key that has no file twice, the drop test
    firing at neither store, both stores return nil, the buffer holds
    the second packet and [inMemSize] has gone up by two, whatever
    [DuplicateReplace] says. *)
Theorem file_buffered_duplicate_ignored `{Codec} `{PathOps}
  (m : File.filePersist) fs key p1 p2 :
  0 < Interval (File.strategy m) →
  File.exists_ m key fs = false →
  dropping (File.strategy m) (wrap32 (File.n m + File.inMemSize m)) = false →
  dropping (File.strategy m)
    (wrap32 (File.n m + wrap32 (File.inMemSize m + 1))) = false →
  let r1 := File.Store m key p1 fs in
  let r2 := File.Store r1.1.2 key p2 r1.2 in
  r1.1.1 = None ∧ r2.1.1 = None ∧ r2.2 = fs
  ∧ File.inMemBuf r2.1.2 = <[key := p2]> (File.inMemBuf m)
  ∧ File.inMemSize r2.1.2 = wrap32 (wrap32 (File.inMemSize m + 1) + 1).
Proof.
  intros Hi He Hd1 Hd2. cbv zeta.
  assert (File.Store m key p1 fs
          = (None,
             {| File.dirPath := File.dirPath m;
                File.inMemBuf := <[key := p1]> (File.inMemBuf m);
                File.inMemSize := wrap32 (File.inMemSize m + 1);
                File.strategy := File.strategy m; File.n := File.n m |},
             fs)) as ->.
  { unfold File.Store. rewrite file_drop_test, Hd1, He. simpl.
    destruct (Z.ltb_spec 0 (Interval (File.strategy m))); [reflexivity|lia]. }
  cbn [fst snd]. unfold File.Store. rewrite file_drop_test. cbn [File.strategy
    File.n File.inMemSize File.inMemBuf File.dirPath].
  rewrite Hd2.
  replace (File.exists_ _ key fs) with (File.exists_ m key fs) by reflexivity.
  rewrite He. simpl.
  destruct (Z.ltb_spec 0 (Interval (File.strategy m))); [|lia]. simpl.
  rewrite insert_insert_eq. done.
Qed.

Lemma file_buffered_duplicate_ignored_witness :
  File.inMemBuf
    (File.Store (File.Store
        (File.NewFilePersist "d"
           (Some {| Interval := 1; MaxCount := 0; DropOnExceed := false;
                    DuplicateReplace := false |}) emptyfs)
        "k" Demo.req emptyfs).1.2 "k" Demo.resp emptyfs).1.2
  = {[ "k" := Demo.resp ]}.
Proof.
  apply (file_buffered_duplicate_ignored
           (File.NewFilePersist "d"
              (Some {| Interval := 1; MaxCount := 0; DropOnExceed := false;
                       DuplicateReplace := false |}) emptyfs)
           emptyfs "k" Demo.req Demo.resp);
    [simpl; lia | reflexivity | reflexivity | reflexivity].
Defined.

(** X11: a key whose file cannot be opened counts as present.  Without
    [DuplicateReplace], in either mode, [Store] then returns nil and
    stores nothing, and the key loads absent. *)
Theorem file_unopenable_key_skipped `{Codec} `{PathOps}
  (m : File.filePersist) fs key p :
  File.getFilename m key ∈ rfail fs →
  DuplicateReplace (File.strategy m) = false →
  dropping (File.strategy m) (wrap32 (File.n m + File.inMemSize m)) = false →
  File.Store m key p fs = (None, m, fs)
  ∧ File.Load m key fs = (None, false).
Proof.
  intros Hr Hrep Hd. split.
  - apply file_Store_keep; [exact Hd | | exact Hrep].
    unfold File.exists_, Open.
    destruct (decide (_ ∈ rfail fs)); [reflexivity | contradiction].
  - unfold File.Load, File.getPacketFromFile, ReadFile.
    destruct (decide (_ ∈ rfail fs)); [reflexivity | contradiction].
Qed.

Lemma file_unopenable_key_skipped_witness :
  File.Store Demo.fileKeep "k" Demo.resp Demo.unreadable
  = (None, Demo.fileKeep, Demo.unreadable).
Proof.
  apply (file_unopenable_key_skipped Demo.fileKeep Demo.unreadable "k"
           Demo.resp);
    [cbn; apply elem_of_singleton_2; reflexivity | reflexivity | reflexivity].
Defined.

(** X12: a [Store] of one key, in either mode, leaves what every key
    with another file name loads as it was. *)
Theorem file_store_other_keys `{Codec} `{PathOps}
  (m : File.filePersist) fs key key' p :
  File.getFilename m key' ≠ File.getFilename m key →
  File.Load (File.Store m key p fs).1.2 key' (File.Store m key p fs).2
  = File.Load m key' fs.
Proof.
  intros Hne. unfold File.Store.
  destruct (_ && _ && _); [reflexivity|].
  destruct (negb _ || _); [|reflexivity].
  destruct (0 <? _); [reflexivity|].
  unfold File.store. destruct p as [pkt|]; [|reflexivity].
  unfold WriteFile. destruct (decide (_ ∈ wfail fs)); [reflexivity|].
  unfold File.Load, File.getPacketFromFile, ReadFile, File.getFilename in *.
  simpl. rewrite lookup_insert_ne by congruence. reflexivity.
Qed.

Lemma file_store_other_keys_witness :
  File.Load (File.Store Demo.fileSync "a" Demo.req emptyfs).1.2 "b"
    (File.Store Demo.fileSync "a" Demo.req emptyfs).2
  = (None, false).
Proof.
  apply (file_store_other_keys Demo.fileSync emptyfs "a" "b" Demo.req).
  discriminate.
Defined.

(** X13: [Delete] removes the file whose name is the key as given, so
    the record stored under [key] goes away by deleting [key ++ ".mqtt"]:
    that call returns nil and [key] loads absent afterwards. *)
Theorem file_delete_suffixed_key `{Codec} `{PathOps}
  (m : File.filePersist) fs key :
  is_Some (files fs !! File.getFilename m key) →
  File.getFilename m key ∉ wfail fs →
  let r := File.Delete m (key ++ File.fileSuffix)%string fs in
  r.1.1 = None ∧ File.Load r.1.2 key r.2 = (None, false).
Proof.
  intros [content Hf] Hw. cbv zeta. unfold File.Delete, Remove.
  fold (File.getFilename m key). rewrite Hf.
  destruct (decide (_ ∈ wfail fs)); [contradiction|]. simpl.
  split; [reflexivity|].
  unfold File.Load, File.getPacketFromFile, ReadFile. simpl.
  destruct (decide (_ ∈ rfail fs)); [reflexivity|].
  rewrite lookup_delete_eq. reflexivity.
Qed.

Lemma file_delete_suffixed_key_witness :
  File.Load
    (File.Delete (File.Store Demo.fileSync "k" Demo.req emptyfs).1.2
       "k.mqtt" (File.Store Demo.fileSync "k" Demo.req emptyfs).2).1.2
    "k"
    (File.Delete (File.Store Demo.fileSync "k" Demo.req emptyfs).1.2
       "k.mqtt" (File.Store Demo.fileSync "k" Demo.req emptyfs).2).2
  = (None, false).
Proof.
  apply (file_delete_suffixed_key
           (File.Store Demo.fileSync "k" Demo.req emptyfs).1.2
           (File.Store Demo.fileSync "k" Demo.req emptyfs).2 "k").
  - exists [xc0; x00]. reflexivity.
  - apply not_elem_of_empty.
Defined.

(** X14: in synchronous mode a nil packet is accepted and ignored:
    [Store] returns nil and neither the backend nor the file system
    changes, so a key without a file still loads absent. *)
Theorem file_sync_nil_packet `{Codec} `{PathOps}
  (m : File.filePersist) fs key :
  Interval (File.strategy m) ≤ 0 →
  dropping (File.strategy m) (wrap32 (File.n m + File.inMemSize m)) = false →
  File.Store m key None fs = (None, m, fs)
  ∧ (File.exists_ m key fs = false → File.Load m key fs = (None, false)).
Proof.
  intros Hi Hd. split; [|apply file_Load_absent].
  unfold File.Store. rewrite file_drop_test, Hd.
  destruct (negb _ || _); [|reflexivity].
  destruct (Z.ltb_spec 0 (Interval (File.strategy m))); [lia | reflexivity].
Qed.

Lemma file_sync_nil_packet_witness :
  File.Store Demo.fileSync "k" None emptyfs = (None, Demo.fileSync, emptyfs).
Proof.
  apply (file_sync_nil_packet Demo.fileSync emptyfs "k");
    [simpl; lia | reflexivity].
Defined.

(** ** filePersist: the flush worker *)

Section worker_facts.
Context `{Codec} `{PathOps}.

Lemma elem_of_persisted l key :
  key ∈ FileBatch.persisted l ↔ ∃ p, (key, Some p) ∈ l.
Proof.
  unfold FileBatch.persisted. rewrite list_elem_of_omap. split.
  - intros ([k [p|]] & Hin & Heq); simpl in Heq; [|discriminate].
    inversion Heq. subst. exists p. exact Hin.
  - intros [p Hin]. exists (key, Some p). split; [exact Hin | reflexivity].
Qed.

Lemma workerStep_eq (m : File.filePersist) fs keys key v :
  File.workerStep (m, fs, keys) (key, v)
  = match v with
    | None => (m, fs, keys)
    | Some p => ((File.store m key (Some p) fs).1.2,
                 (File.store m key (Some p) fs).2, keys ++ [key])
    end.
Proof.
  unfold File.workerStep. cbn [fst snd]. destruct v as [p|]; [|reflexivity].
  destruct (File.store m key (Some p) fs) as [[e m'] fs']. reflexivity.
Qed.

(** [store] touches the two counters and at most one file. *)
Lemma store_shape (m : File.filePersist) key p fs :
  File.dirPath (File.store m key p fs).1.2 = File.dirPath m
  ∧ File.inMemBuf (File.store m key p fs).1.2 = File.inMemBuf m
  ∧ rfail (File.store m key p fs).2 = rfail fs
  ∧ wfail (File.store m key p fs).2 = wfail fs.
Proof.
  unfold File.store, WriteFile. destruct p as [pkt|]; [|done].
  destruct (decide (_ ∈ wfail fs)); done.
Qed.

Lemma store_files_other (m : File.filePersist) key p fs f :
  File.getFilename m key ≠ f ∨ f ∈ wfail fs →
  files (File.store m key p fs).2 !! f = files fs !! f.
Proof.
  intros Hf. unfold File.store, WriteFile. destruct p as [pkt|]; [|done].
  destruct (decide (_ ∈ wfail fs)) as [Hin | Hout]; [done|]. simpl.
  apply lookup_insert_ne. destruct Hf as [Hne | Hw]; [exact Hne|].
  intros <-. contradiction.
Qed.

Lemma store_files_same (m : File.filePersist) key pkt fs :
  File.getFilename m key ∉ wfail fs →
  files (File.store m key (Some pkt) fs).2 !! File.getFilename m key
  = Some (Bytes pkt).
Proof.
  intros Hw. rewrite (file_store_written m key pkt fs Hw). simpl.
  apply lookup_insert_eq.
Qed.

(** What the fold of a round keeps, and the keys it collects. *)
Lemma fold_shape l : ∀ (m : File.filePersist) fs keys,
  File.dirPath (foldl File.workerStep (m, fs, keys) l).1.1 = File.dirPath m
  ∧ File.inMemBuf (foldl File.workerStep (m, fs, keys) l).1.1
    = File.inMemBuf m
  ∧ rfail (foldl File.workerStep (m, fs, keys) l).1.2 = rfail fs
  ∧ wfail (foldl File.workerStep (m, fs, keys) l).1.2 = wfail fs
  ∧ (foldl File.workerStep (m, fs, keys) l).2 = keys ++ FileBatch.persisted l.
Proof.
  induction l as [|[key v] l IH]; intros m fs keys.
  - simpl. rewrite app_nil_r. done.
  - change (foldl File.workerStep (m, fs, keys) ((key, v) :: l))
      with (foldl File.workerStep
              (File.workerStep (m, fs, keys) (key, v)) l).
    rewrite workerStep_eq. destruct v as [p|].
    + destruct (store_shape m key (Some p) fs) as (Hd & Hb & Hr & Hw).
      destruct (IH (File.store m key (Some p) fs).1.2
                   (File.store m key (Some p) fs).2 (keys ++ [key]))
        as (Hd' & Hb' & Hr' & Hw' & Hk').
      rewrite Hd', Hb', Hr', Hw', Hk', Hd, Hb, Hr, Hw.
      unfold FileBatch.persisted. simpl. rewrite <- app_assoc. done.
    + apply IH.
Qed.

(** A file whose name no walked key has, or on which writes fail, is
    left as it was. *)
Lemma fold_files_other l : ∀ (m : File.filePersist) fs keys f,
  (∀ key v, (key, v) ∈ l → File.getFilename m key ≠ f) ∨ f ∈ wfail fs →
  files (foldl File.workerStep (m, fs, keys) l).1.2 !! f = files fs !! f.
Proof.
  induction l as [|[key v] l IH]; intros m fs keys f Hf; [reflexivity|].
  change (foldl File.workerStep (m, fs, keys) ((key, v) :: l))
    with (foldl File.workerStep
            (File.workerStep (m, fs, keys) (key, v)) l).
  rewrite workerStep_eq. destruct v as [p|].
  - destruct (store_shape m key (Some p) fs) as (Hd & _ & _ & Hw).
    rewrite IH.
    + apply store_files_other. destruct Hf as [Hne | Hin]; [left | by right].
      apply (Hne key (Some p)). apply elem_of_cons. by left.
    + destruct Hf as [Hne | Hin]; [left | right; by rewrite Hw].
      intros key' v' Hin. unfold File.getFilename. rewrite Hd.
      apply (Hne key' v'). apply elem_of_cons. by right.
  - apply IH. destruct Hf as [Hne | Hin]; [left | by right].
    intros key' v' Hin. apply (Hne key' v'). apply elem_of_cons. by right.
Qed.

(** A round on a buffer of nil packets only changes nothing. *)
Lemma fold_all_nil l (m : File.filePersist) fs keys :
  (∀ key v, (key, v) ∈ l → v = None) →
  foldl File.workerStep (m, fs, keys) l = (m, fs, keys).
Proof.
  induction l as [|[key v] l IH]; intros Hnil; [reflexivity|].
  change (foldl File.workerStep (m, fs, keys) ((key, v) :: l))
    with (foldl File.workerStep
            (File.workerStep (m, fs, keys) (key, v)) l).
  rewrite workerStep_eq.
  rewrite (Hnil key v) by (apply elem_of_cons; by left).
  apply IH. intros key' v' Hin. apply (Hnil key' v').
  apply elem_of_cons. by right.
Qed.

(** The result of a round through its parts. *)
Lemma workerRound_eq (m : File.filePersist) fs :
  File.workerRound m fs
  = (let r := foldl File.workerStep (m, fs, [])
                (map_to_list (File.inMemBuf m)) in
     ({| File.dirPath := File.dirPath r.1.1;
         File.inMemBuf := foldr delete (File.inMemBuf r.1.1) r.2;
         File.inMemSize := File.inMemSize r.1.1;
         File.strategy := File.strategy r.1.1;
         File.n := File.n r.1.1 |}, r.1.2)).
Proof.
  unfold File.workerRound.
  destruct (foldl File.workerStep _ _) as [[m' fs'] keys]. reflexivity.
Qed.

End worker_facts.

(** X15: after a round of the worker the buffer holds the nil packets
    it held before and nothing else: every non-nil packet is taken out,
    whether its file was written or not. *)
Theorem file_flush_keeps_only_nil `{Codec} `{PathOps}
  (m : File.filePersist) fs key :
  File.inMemBuf (File.workerRound m fs).1 !! key
  = match File.inMemBuf m !! key with
    | Some None => Some None
    | _ => None
    end.
Proof.
  rewrite workerRound_eq. cbv zeta. cbn [fst File.inMemBuf].
  destruct (fold_shape (map_to_list (File.inMemBuf m)) m fs [])
    as (_ & -> & _ & _ & ->). rewrite app_nil_l.
  destruct (File.inMemBuf m !! key) as [[p|]|] eqn:Hk.
  - apply lookup_foldr_delete, elem_of_persisted. exists p.
    apply elem_of_map_to_list, Hk.
  - rewrite lookup_foldr_delete_not_elem_of; [exact Hk|].
    intros [p Hin]%elem_of_persisted.
    apply elem_of_map_to_list in Hin. congruence.
  - rewrite lookup_foldr_delete_not_elem_of; [exact Hk|].
    intros [p Hin]%elem_of_persisted.
    apply elem_of_map_to_list in Hin. congruence.
Qed.

(** X16: a buffered packet is on disk after one round of the worker.
    For a key buffered with a non-nil packet whose file name no other
    buffered key has, the file being writable and readable and the codec
    decoding the packet's bytes back to it, after the round the key loads
    that packet and is out of the buffer. *)
Theorem file_flush_then_load `{Codec} `{PathOps}
  (m : File.filePersist) fs key pkt :
  File.inMemBuf m !! key = Some (Some pkt) →
  (∀ key', is_Some (File.inMemBuf m !! key') →
           File.getFilename m key' = File.getFilename m key → key' = key) →
  File.getFilename m key ∉ wfail fs →
  File.getFilename m key ∉ rfail fs →
  Decode V311 (Bytes pkt) = Some pkt →
  File.Load (File.workerRound m fs).1 key (File.workerRound m fs).2
  = (Some pkt, true)
  ∧ File.inMemBuf (File.workerRound m fs).1 !! key = None.
Proof.
  intros Hk Hinj Hw Hr Hdec.
  split; [|rewrite file_flush_keeps_only_nil, Hk; reflexivity].
  rewrite workerRound_eq. cbv zeta. cbn [fst snd].
  pose proof (NoDup_fst_map_to_list (File.inMemBuf m)) as Hnd.
  assert (∀ k v, (k, v) ∈ map_to_list (File.inMemBuf m) →
                 File.inMemBuf m !! k = Some v) as Hall
    by (intros k v; apply elem_of_map_to_list).
  apply elem_of_map_to_list, list_elem_of_split in Hk as (l1 & l2 & Hl).
  rewrite Hl in *. rewrite foldl_app.
  set (a1 := foldl File.workerStep (m, fs, []) l1).
  destruct (fold_shape l1 m fs []) as (Hd1 & _ & Hr1 & Hw1 & _).
  fold a1 in Hd1, Hr1, Hw1.
  destruct a1 as [[m1 fs1] keys1]. cbn [fst snd] in *.
  change (foldl File.workerStep (m1, fs1, keys1) ((key, Some pkt) :: l2))
    with (foldl File.workerStep
            (File.workerStep (m1, fs1, keys1) (key, Some pkt)) l2).
  rewrite workerStep_eq.
  set (m2 := (File.store m1 key (Some pkt) fs1).1.2).
  set (fs2 := (File.store m1 key (Some pkt) fs1).2).
  destruct (store_shape m1 key (Some pkt) fs1) as (Hd2 & _ & Hr2 & Hw2).
  fold m2 fs2 in Hd2, Hr2, Hw2.
  destruct (fold_shape l2 m2 fs2 (keys1 ++ [key]))
    as (Hd3 & _ & Hr3 & _ & _).
  assert (File.getFilename m1 key = File.getFilename m key) as Hname
    by (unfold File.getFilename; rewrite Hd1; reflexivity).
  assert (files (foldl File.workerStep (m2, fs2, keys1 ++ [key]) l2).1.2
            !! File.getFilename m key = Some (Bytes pkt)) as Hfile.
  { rewrite fold_files_other.
    - subst fs2. rewrite <- Hname. apply store_files_same.
      rewrite Hname, Hw1. exact Hw.
    - left. intros k v Hin Heq.
      assert (k = key) as ->.
      { apply Hinj.
        - exists v. apply Hall, elem_of_app. right.
          apply elem_of_cons. by right.
        - rewrite <- Heq. unfold File.getFilename.
          rewrite Hd2, Hd1. reflexivity. }
      rewrite fmap_app, fmap_cons in Hnd.
      apply NoDup_app in Hnd as (_ & _ & Hnd).
      apply NoDup_cons in Hnd as (Hnotin & _). apply Hnotin.
      apply (list_elem_of_fmap_2 fst l2 (key, v)), Hin. }
  unfold File.Load, File.getPacketFromFile, ReadFile, File.getFilename in *.
  cbn [File.dirPath]. rewrite Hd3, Hd2, Hd1, Hr3, Hr2, Hr1.
  destruct (decide (_ ∈ rfail fs)); [contradiction|].
  rewrite Hfile, Hdec. reflexivity.
Qed.

(** X17: a failed write loses the packet.  For a key buffered with a
    non-nil packet whose file cannot be written and is not on disk, after
    a round of the worker the key is out of the buffer and loads
    absent. *)
Theorem file_flush_failed_write_loses_packet `{Codec} `{PathOps}
  (m : File.filePersist) fs key pkt :
  File.inMemBuf m !! key = Some (Some pkt) →
  File.getFilename m key ∈ wfail fs →
  files fs !! File.getFilename m key = None →
  File.inMemBuf (File.workerRound m fs).1 !! key = None
  ∧ File.Load (File.workerRound m fs).1 key (File.workerRound m fs).2
    = (None, false).
Proof.
  intros Hk Hw Hf.
  split; [rewrite file_flush_keeps_only_nil, Hk; reflexivity|].
  rewrite workerRound_eq. cbv zeta. cbn [fst snd].
  destruct (fold_shape (map_to_list (File.inMemBuf m)) m fs [])
    as (Hd & _ & Hr & _ & _).
  pose proof (fold_files_other (map_to_list (File.inMemBuf m)) m fs []
                (File.getFilename m key) (or_intror Hw)) as Hfiles.
  unfold File.Load, File.getPacketFromFile, ReadFile, File.getFilename in *.
  cbn [File.dirPath]. rewrite Hd, Hr.
  destruct (decide (_ ∈ rfail fs)); [reflexivity|].
  rewrite Hfiles, Hf. reflexivity.
Qed.

(** X18: the worker never returns once the buffer holds nil packets
    only (or nothing) while [inMemSize] is positive: a round changes
    nothing, so the recursion goes on for every number of rounds. *)
Theorem file_worker_never_returns `{Codec} `{PathOps}
  (m : File.filePersist) fs (fuel : nat) :
  (∀ key v, File.inMemBuf m !! key = Some v → v = None) →
  0 < File.inMemSize m →
  File.workerRound m fs = (m, fs)
  ∧ FileBatch.workerRun fuel m fs = None.
Proof.
  intros Hnil Hsize.
  assert (File.workerRound m fs = (m, fs)) as Hround.
  { rewrite workerRound_eq. cbv zeta. rewrite fold_all_nil.
    - destruct m. reflexivity.
    - intros key v Hin. apply (Hnil key), elem_of_map_to_list, Hin. }
  split; [exact Hround|].
  induction fuel as [|fuel IH]; [reflexivity|].
  simpl. rewrite Hround.
  destruct (Z.ltb_spec 0 (File.inMemSize m)); [exact IH | lia].
Qed.

(** The buffered backend of the examples after one [Store] of ["k"]. *)
Lemma buffered_one (p : option Packet) :
  File.inMemBuf (File.Store Demo.fileBuffered "k" p emptyfs).1.2
  = <["k" := p]> ∅.
Proof. reflexivity. Qed.

Lemma file_flush_then_load_witness :
  File.Load
    (File.workerRound
       (File.Store Demo.fileBuffered "k" Demo.req emptyfs).1.2 emptyfs).1
    "k"
    (File.workerRound
       (File.Store Demo.fileBuffered "k" Demo.req emptyfs).1.2 emptyfs).2
  = (Demo.req, true).
Proof.
  apply (file_flush_then_load
           (File.Store Demo.fileBuffered "k" Demo.req emptyfs).1.2 emptyfs
           "k" Demo.PingReqPacket).
  - reflexivity.
  - intros key' [v Hv] _. rewrite buffered_one in Hv.
    destruct (decide (key' = "k")) as [-> | Hne]; [reflexivity|].
    rewrite lookup_insert_ne, lookup_empty in Hv by congruence.
    discriminate.
  - apply not_elem_of_empty.
  - apply not_elem_of_empty.
  - reflexivity.
Defined.

Lemma file_flush_failed_write_loses_packet_witness :
  File.Load
    (File.workerRound
       (File.Store Demo.fileBuffered "k" Demo.req Demo.unwritable).1.2
       Demo.unwritable).1
    "k"
    (File.workerRound
       (File.Store Demo.fileBuffered "k" Demo.req Demo.unwritable).1.2
       Demo.unwritable).2
  = (None, false).
Proof.
  apply (file_flush_failed_write_loses_packet
           (File.Store Demo.fileBuffered "k" Demo.req Demo.unwritable).1.2
           Demo.unwritable "k" Demo.PingReqPacket).
  - reflexivity.
  - cbn. apply elem_of_singleton_2. reflexivity.
  - reflexivity.
Defined.

Lemma file_worker_never_returns_witness :
  FileBatch.workerRun 5
    (File.Store Demo.fileBuffered "k" None emptyfs).1.2 emptyfs
  = None.
Proof.
  apply (file_worker_never_returns
           (File.Store Demo.fileBuffered "k" None emptyfs).1.2 emptyfs 5).
  - intros key v Hv. rewrite buffered_one in Hv.
    destruct (decide (key = "k")) as [-> | Hne].
    + rewrite lookup_insert_eq in Hv. congruence.
    + rewrite lookup_insert_ne, lookup_empty in Hv by congruence.
      discriminate.
  - reflexivity.
Defined.

(** Every packet of the walk is written: [inMemSize] goes down by the
    number of packets. *)
Lemma fold_counts `{Codec} `{PathOps} l :
  ∀ (m : File.filePersist) fs keys,
    0 ≤ File.inMemSize m < 2 ^ 32 →
    (∀ key v, (key, v) ∈ l →
              v ≠ None ∧ File.getFilename m key ∉ wfail fs) →
    File.inMemSize (foldl File.workerStep (m, fs, keys) l).1.1
    = wrap32 (File.inMemSize m - Z.of_nat (length l)).
Proof.
  induction l as [|[key v] l IH]; intros m fs keys Hrange Hall.
  - simpl. rewrite Z.sub_0_r, wrap32_small by exact Hrange. reflexivity.
  - change (foldl File.workerStep (m, fs, keys) ((key, v) :: l))
      with (foldl File.workerStep
              (File.workerStep (m, fs, keys) (key, v)) l).
    rewrite workerStep_eq.
    destruct (Hall key v) as [Hv Hw]; [apply elem_of_cons; by left|].
    destruct v as [p|]; [|congruence].
    rewrite (file_store_written m key p fs Hw). cbn [fst snd].
    rewrite IH.
    + cbn [File.inMemSize]. unfold wrap32.
      rewrite Zminus_mod_idemp_l. f_equal. simpl length. lia.
    + cbn [File.inMemSize]. apply wrap32_range.
    + intros key' v' Hin.
      destruct (Hall key' v') as [Hv' Hw']; [apply elem_of_cons; by right|].
      split; [exact Hv' | exact Hw'].
Qed.

(** X19: the flush completes when it should.  When [inMemSize] is the
    number of buffered records, none of them nil and all their files
    writable, the worker returns after one round with [inMemSize] back to
    0 and the buffer empty. *)
Theorem file_flush_completes `{Codec} `{PathOps}
  (m : File.filePersist) fs :
  File.inMemSize m = Z.of_nat (size (File.inMemBuf m)) →
  File.inMemSize m < 2 ^ 32 →
  (∀ key v, File.inMemBuf m !! key = Some v →
            v ≠ None ∧ File.getFilename m key ∉ wfail fs) →
  FileBatch.workerRun 1 m fs = Some (File.workerRound m fs)
  ∧ File.inMemSize (File.workerRound m fs).1 = 0
  ∧ File.inMemBuf (File.workerRound m fs).1 = ∅.
Proof.
  intros Hsize Hlt Hall.
  assert (File.inMemSize (File.workerRound m fs).1 = 0) as Hzero.
  { rewrite workerRound_eq. cbv zeta. cbn [fst File.inMemSize].
    rewrite fold_counts.
    - rewrite length_map_to_list, Hsize, Z.sub_diag. reflexivity.
    - lia.
    - intros key v Hin. apply Hall, elem_of_map_to_list, Hin. }
  split; [|split; [exact Hzero|]].
  - simpl. destruct (File.workerRound m fs) as [m' fs'] eqn:Hr.
    simpl in Hzero. rewrite Hzero. reflexivity.
  - apply map_eq. intros key.
    rewrite file_flush_keeps_only_nil, lookup_empty.
    destruct (File.inMemBuf m !! key) as [[p|]|] eqn:Hk; try reflexivity.
    destruct (Hall key None Hk) as [Hv _]. congruence.
Qed.

Lemma file_flush_completes_witness :
  FileBatch.workerRun 1
    (File.Store Demo.fileBuffered "k" Demo.req emptyfs).1.2 emptyfs
  = Some (File.workerRound
            (File.Store Demo.fileBuffered "k" Demo.req emptyfs).1.2 emptyfs).
Proof.
  apply (file_flush_completes
           (File.Store Demo.fileBuffered "k" Demo.req emptyfs).1.2 emptyfs).
  - reflexivity.
  - reflexivity.
  - intros key v Hv. rewrite buffered_one in Hv.
    split; [|apply not_elem_of_empty].
    destruct (decide (key = "k")) as [-> | Hne].
    + rewrite lookup_insert_eq in Hv. unfold Demo.req in Hv. congruence.
    + rewrite lookup_insert_ne, lookup_empty in Hv by congruence.
      discriminate.
Defined.

(** ** The handshake and the registry, further *)

Section broker_more.
Import Broker.

(** X20: over a websocket a good handshake starts the two loops of a
    connection marked V311, whatever the configured version, and then
    closes the connection: the deferred close runs as soon as
    [handleConn] has returned. *)
Theorem handleWS_closes_after_handshake conf connections c p :
  firstPacket c (version conf) = DecodedConn p →
  (handleWS conf connections (Some c)).2
  = [GoHandleConnRecv (newConn V311 c p);
     GoHandleConnSend (newConn V311 c p);
     ConnClose c]
  ∧ (handleWS conf connections (Some c)).1 = connections.
Proof.
  intros Hp. unfold handleWS, handleConn. rewrite Hp. done.
Qed.

Lemma handleWS_closes_after_handshake_witness :
  ConnClose (Demo.client "c1")
  ∈ (handleWS (Demo.conf 0 10) ∅ (Some (Demo.client "c1"))).2.
Proof.
  rewrite (proj1 (handleWS_closes_after_handshake (Demo.conf 0 10) ∅
                    (Demo.client "c1")
                    {| ClientID := "c1"; Keepalive := 10 |} eq_refl)).
  apply elem_of_cons; right. apply elem_of_cons; right.
  apply elem_of_cons; left. reflexivity.
Defined.

Lemma tcpWorker_other_keys conf connections c key :
  key ≠ "" → (tcpWorker conf connections c).1 !! key = connections !! key.
Proof.
  intros Hne. unfold tcpWorker.
  destruct (firstPacket c V5); simpl; [reflexivity | | reflexivity].
  apply lookup_insert_ne. congruence.
Qed.

Lemma registryAfter_other_keys conf cs : ∀ connections key,
  key ≠ "" → registryAfter conf connections cs !! key = connections !! key.
Proof.
  induction cs as [|c cs IH]; intros connections key Hne; [reflexivity|].
  unfold registryAfter in *. simpl. rewrite IH by exact Hne.
  apply tcpWorker_other_keys, Hne.
Qed.

(** X21: whatever connections [tcpWorker] serves and whatever their
    client identifiers, it never changes the entry of a key that is not
    the empty string; starting from the empty registry, the registry
    never holds more than one connection. *)
Theorem tcpWorker_registry_single conf cs :
  (∀ connections key,
      key ≠ "" →
      registryAfter conf connections cs !! key = connections !! key)
  ∧ (size (registryAfter conf ∅ cs) ≤ 1)%nat.
Proof.
  split; [apply registryAfter_other_keys|].
  rewrite <- size_dom.
  transitivity (size ({[ "" ]} : gset string));
    [|rewrite size_singleton; reflexivity].
  apply subseteq_size. intros key Hin. apply elem_of_singleton.
  destruct (decide (key = "")) as [-> | Hne]; [reflexivity|].
  apply elem_of_dom in Hin as [v Hv].
  rewrite registryAfter_other_keys, lookup_empty in Hv by exact Hne.
  discriminate.
Qed.

Lemma tcpWorker_registry_single_witness :
  registryAfter (Demo.conf 0 10) ∅ [Demo.client "c1"; Demo.client "c2"]
    !! "c1" = None
  ∧ (size (registryAfter (Demo.conf 0 10) ∅
             [Demo.client "c1"; Demo.client "c2"]) ≤ 1)%nat.
Proof.
  destruct (tcpWorker_registry_single (Demo.conf 0 10)
              [Demo.client "c1"; Demo.client "c2"]) as (Hkeys & Hsize).
  split; [|exact Hsize].
  rewrite (Hkeys ∅ "c1") by discriminate. apply lookup_empty.
Defined.

(** X22: [Init] starts a listener for a transport exactly when its port
    is positive: a port of 0, or a negative one, leaves it off. *)
Theorem Init_starts_positive_ports conf transport :
  GoListen transport ∈ Init conf
  ↔ (transport = "tcp" ∧ 0 < tcpPort conf)
    ∨ (transport = "tcps" ∧ 0 < tcpsPort conf)
    ∨ (transport = "ws" ∧ 0 < wsPort conf)
    ∨ (transport = "wss" ∧ 0 < wssPort conf).
Proof.
  unfold Init, onExit, startListeners. rewrite servicesAfterInit_nil.
  simpl.
  destruct (Z.ltb_spec 0 (tcpPort conf)), (Z.ltb_spec 0 (tcpsPort conf)),
    (Z.ltb_spec 0 (wsPort conf)), (Z.ltb_spec 0 (wssPort conf)); simpl;
    rewrite ?elem_of_cons, ?elem_of_nil;
    (split;
     [ intros Hin; repeat destruct Hin as [Hin | Hin];
       try discriminate; try contradiction;
       inversion Hin; subst; auto 10
     | intros [[-> Hp] | [[-> Hp] | [[-> Hp] | [-> Hp]]]];
       try lia; auto 10 ]).
Qed.

End broker_more.

(** ** The default strategy *)

Lemma run_strategy `{Codec} (ops : list MemTrace.op) :
  ∀ m : Mem.memPersist,
    Mem.strategy (MemTrace.run m ops) = Mem.strategy m.
Proof.
  induction ops as [|o ops IH]; intros m; [reflexivity|].
  rewrite run_cons, IH.
  destruct o; simpl; [apply mem_Store_strategy | reflexivity..].
Qed.

(** X23: a [memPersist] made without a strategy, or with one that does
    not drop, behaves as a plain map after any history: [Store] returns
    nil, and under [DuplicateReplace] (the default) the key then loads
    the packet just stored. *)
Theorem mem_without_drop_is_a_map `{Codec} s ops key p :
  DropOnExceed (strategyOrDefault s) = false →
  let m := MemTrace.run (Mem.NewMemPersist s) ops in
  (Mem.Store m key p).1 = None
  ∧ (DuplicateReplace (strategyOrDefault s) = true →
     Mem.Load (Mem.Store m key p).2 key = (p, true)).
Proof.
  intros Hdrop m.
  assert (Mem.strategy m = strategyOrDefault s) as Hs
    by (subst m; rewrite run_strategy; reflexivity).
  assert (dropping (Mem.strategy m) (Mem.n m) = false) as Hd.
  { unfold dropping. rewrite Hs, Hdrop, andb_false_r. reflexivity. }
  destruct (Mem.data m !! key) as [q|] eqn:Hk.
  - rewrite (mem_Store_present m key p q Hd Hk). split; [reflexivity|].
    intros Hrep. rewrite Hs, Hrep. apply mem_Load_inserted.
  - rewrite (mem_Store_fresh m key p Hd Hk). split; [reflexivity|].
    intros _. apply mem_Load_inserted.
Qed.

Lemma mem_without_drop_is_a_map_witness :
  (Mem.Store (MemTrace.run (Mem.NewMemPersist None)
                [MemTrace.OpStore "k" Demo.req; MemTrace.OpDelete "j"])
     "k" Demo.resp).1 = None
  ∧ Mem.Load
      (Mem.Store (MemTrace.run (Mem.NewMemPersist None)
                    [MemTrace.OpStore "k" Demo.req; MemTrace.OpDelete "j"])
         "k" Demo.resp).2 "k"
    = (Demo.resp, true).
Proof.
  destruct (mem_without_drop_is_a_map None
              [MemTrace.OpStore "k" Demo.req; MemTrace.OpDelete "j"]
              "k" Demo.resp eq_refl) as (Hnil & Hload).
  split; [exact Hnil | exact (Hload eq_refl)].
Defined.

(** ** Delete on the in-memory backend, the cap across a flush *)

(** X24: [memPersist.Delete] returns nil for every key, stored or not;
    the key loads absent afterwards, and deleting it a second time
    changes nothing more. *)
Theorem mem_delete_idempotent `{Codec} (m : Mem.memPersist) key :
  (Mem.Delete m key).1 = None
  ∧ Mem.Load (Mem.Delete m key).2 key = (None, false)
  ∧ Mem.Delete (Mem.Delete m key).2 key = Mem.Delete m key.
Proof.
  unfold Mem.Delete, Mem.Load. simpl.
  rewrite lookup_delete_eq, delete_delete_eq. done.
Qed.

Lemma fold_strategy `{Codec} `{PathOps} l :
  ∀ (m : File.filePersist) fs keys,
    File.strategy (foldl File.workerStep (m, fs, keys) l).1.1
    = File.strategy m.
Proof.
  induction l as [|[key v] l IH]; intros m fs keys; [reflexivity|].
  change (foldl File.workerStep (m, fs, keys) ((key, v) :: l))
    with (foldl File.workerStep
            (File.workerStep (m, fs, keys) (key, v)) l).
  rewrite workerStep_eq. destruct v as [p|]; [|apply IH].
  rewrite IH. unfold File.store.
  destruct (WriteFile fs _ _); reflexivity.
Qed.

(** X25: a flush frees no room.  The cap is on the files written plus
    the records buffered, and a round of the worker moves records from
    the second to the first: when [Store] is dropped before a round, it
    is dropped after it. *)
Theorem file_flush_frees_no_room `{Codec} `{PathOps}
  (m : File.filePersist) fs key p :
  dropping (File.strategy m) (wrap32 (File.n m + File.inMemSize m)) = true →
  (File.Store (File.workerRound m fs).1 key p (File.workerRound m fs).2).1.1
  = Some ErrPacketDroppedByStrategy.
Proof.
  intros Hd. rewrite file_Store_dropped; [reflexivity|].
  rewrite file_workerRound_sum.
  replace (File.strategy (File.workerRound m fs).1) with (File.strategy m);
    [exact Hd|].
  rewrite workerRound_eq. cbv zeta. cbn [fst File.strategy].
  symmetry. apply fold_strategy.
Qed.

Lemma file_flush_frees_no_room_witness :
  (File.Store
     (File.workerRound
        (File.Store
           (File.NewFilePersist "d"
              (Some {| Interval := 1; MaxCount := 1; DropOnExceed := true;
                       DuplicateReplace := true |}) emptyfs)
           "a" Demo.req emptyfs).1.2 emptyfs).1
     "b" Demo.resp
     (File.workerRound
        (File.Store
           (File.NewFilePersist "d"
              (Some {| Interval := 1; MaxCount := 1; DropOnExceed := true;
                       DuplicateReplace := true |}) emptyfs)
           "a" Demo.req emptyfs).1.2 emptyfs).2).1.1
  = Some ErrPacketDroppedByStrategy.
Proof.
  apply (file_flush_frees_no_room
           (File.Store
              (File.NewFilePersist "d"
                 (Some {| Interval := 1; MaxCount := 1; DropOnExceed := true;
                          DuplicateReplace := true |}) emptyfs)
              "a" Demo.req emptyfs).1.2 emptyfs "b" Demo.resp).
  reflexivity.
Defined.
